(** * TDT greedy decoding and transcript assembly of [scripts/onnx/test_tdt_decode.py]

    The script runs a Token-and-Duration Transducer decoder over the encoder
    output of one utterance and joins the emitted token ids into a transcript.
    This development embeds the decode loop (lines 54-83) and the transcript
    expression (line 85) and proves the properties stated for them.

    Python integers are modelled as [Z], Python lists as [list], Python
    strings as lists of Unicode code points, and a raised exception as an
    explicit result. *)

From Stdlib Require Import ZArith List Bool Lia String Ascii.
Import ListNotations.
Local Open Scope Z_scope.

(** ** Python sequence primitives *)

Module Py.

(** [len(l)] *)
Definition len {A} (l : list A) : Z := Z.of_nat (List.length l).

(** [l[i]] for an integer [i]: a negative index counts from the end, an index
    outside [-len(l), len(l)) raises IndexError ([None]). *)
Definition getitem {A} (l : list A) (i : Z) : option A :=
  if i <? 0
  then if len l + i <? 0 then None else nth_error l (Z.to_nat (len l + i))
  else nth_error l (Z.to_nat i).

(** [l[:k]]: a negative bound counts from the end, bounds are clamped. *)
Definition slice_to {A} (l : list A) (k : Z) : list A :=
  if k <? 0 then firstn (Z.to_nat (len l + k)) l else firstn (Z.to_nat k) l.

(** [l[k:]] *)
Definition slice_from {A} (l : list A) (k : Z) : list A :=
  if k <? 0 then skipn (Z.to_nat (len l + k)) l else skipn (Z.to_nat k) l.

End Py.

(** ** [np.argmax] on a one-dimensional float array

    Scores are float32 in the script; the loop only compares them.  The
    development is therefore parametric in the score type, its [<=] test and
    its NaN test.  [np.argmax] returns the index of the first maximal entry,
    the first NaN winning over everything, and raises ValueError on an empty
    array. *)

Section Argmax.
Context {score : Type}.
Variable score_le : score -> score -> bool.
Variable score_isnan : score -> bool.

(** The scan over the entries after the first: [mp] is the running maximum,
    [best] its index, [i] the index of the head of the remaining list. *)
Fixpoint argmax_scan (mp : score) (best i : nat) (l : list score) : nat :=
  match l with
  | [] => best
  | x :: r =>
      if score_isnan mp then best
      else if negb (score_le x mp) then argmax_scan x i (S i) r
      else argmax_scan mp best (S i) r
  end.

Definition np_argmax (l : list score) : option nat :=
  match l with
  | [] => None
  | x :: r => Some (argmax_scan x 0%nat 1%nat r)
  end.
End Argmax.

(** ** The decode loop *)

Inductive exn : Type :=
| SessionError   (* [dec_sess.run] raised *)
| IndexError     (* an index outside a sequence *)
| ValueError.    (* [np.argmax] of an empty sequence *)

Module Tdt.

Section Decode.
Context {score tensor hidden : Type}.
Variable score_le : score -> score -> bool.
Variable score_isnan : score -> bool.

(** [dec_sess.run(None, {encoder_outputs, targets, input_states_1,
    input_states_2})]: the decoder graph holds the prediction network and
    the joint network.  It returns the joint tensor, read here as one logit
    vector per encoder frame ([joint[0, t, 0, :]]), and the two new LSTM
    state tensors; [None] stands for a raised runtime error. *)
Variable dec_sess_run :
  hidden -> Z -> tensor -> tensor -> option (list (list score) * tensor * tensor).

Variable enc_hidden : hidden.
Variable enc_T : Z.
(** [np.zeros((2, 1, 640))] *)
Variable zeros : tensor.
(** The literal [10] of the loop guard [iters < enc_T * 10]. *)
Variable max_step_multiplier : Z.

Definition blank_id : Z := 1024.
Definition tdt_durations : list Z := [0; 1; 2; 3; 4].

(** The variables the loop reads and writes. *)
Record DecodeState : Type := mkState {
  tokens : list Z;
  t : Z;
  last_label : Z;
  iters : Z;
  lstm_h : tensor;
  lstm_c : tensor
}.

(** Lines 56-62. *)
Definition init_state : DecodeState :=
  {| tokens := []; t := 0; last_label := blank_id; iters := 0;
     lstm_h := zeros; lstm_c := zeros |}.

(** Line 63: [t < enc_T and iters < enc_T * 10]. *)
Definition loop_cond (s : DecodeState) : bool :=
  (t s <? enc_T) && (iters s <? enc_T * max_step_multiplier).

(** The effect of one pass through the loop body: the next state, or the
    exception raised together with the variables as they stand then. *)
Inductive body_result : Type :=
| Next (s : DecodeState)
| Raise (e : exn) (s : DecodeState).

(** Lines 64-83. *)
Definition loop_body (s : DecodeState) : body_result :=
  let s1 := mkState (tokens s) (t s) (last_label s) (iters s + 1)
                    (lstm_h s) (lstm_c s) in
  match dec_sess_run enc_hidden (last_label s) (lstm_h s) (lstm_c s) with
  | None => Raise SessionError s1
  | Some (joint, h', c') =>
      let s2 := mkState (tokens s) (t s) (last_label s) (iters s + 1) h' c' in
      match Py.getitem joint (t s) with
      | None => Raise IndexError s2
      | Some logits =>
          match np_argmax score_le score_isnan
                  (Py.slice_to logits (blank_id + 1)) with
          | None => Raise ValueError s2
          | Some b =>
              let best := Z.of_nat b in
              if best =? blank_id
              then Next (mkState (tokens s) (t s + 1) (last_label s)
                                 (iters s + 1) h' c')
              else
                let s3 := mkState (tokens s ++ [best]) (t s) best
                                  (iters s + 1) h' c' in
                match np_argmax score_le score_isnan
                        (Py.slice_from logits (blank_id + 1)) with
                | None => Raise ValueError s3
                | Some dur_idx =>
                    match Py.getitem tdt_durations (Z.of_nat dur_idx) with
                    | None => Raise IndexError s3
                    | Some d =>
                        Next (mkState (tokens s ++ [best])
                                      (t s + Z.max 1 d) best
                                      (iters s + 1) h' c')
                    end
                end
          end
      end
  end.

(** How a run of the loop ends. *)
Inductive outcome : Type :=
| Finished (s : DecodeState)          (* the guard became false *)
| Raised (e : exn) (s : DecodeState)  (* the body raised *)
| OutOfFuel.                          (* the model ran out of fuel *)

(** The [while] loop of lines 63-83, run for at most [fuel] passes. *)
Fixpoint run (fuel : nat) (s : DecodeState) : outcome :=
  if loop_cond s then
    match fuel with
    | O => OutOfFuel
    | S fuel' =>
        match loop_body s with
        | Next s' => run fuel' s'
        | Raise e s' => Raised e s'
        end
    end
  else Finished s.

(** One completed pass of the loop. *)
Definition step (s s' : DecodeState) : Prop :=
  loop_cond s = true /\ loop_body s = Next s'.

(** The states at the top of the loop during a decode. *)
Inductive reachable : DecodeState -> Prop :=
| reach_init : reachable init_state
| reach_step s s' : reachable s -> step s s' -> reachable s'.

(** The iteration cap [enc_T * 10]. *)
Definition cap : Z := enc_T * max_step_multiplier.

(** Modelled from the spec: the script computes no truncation flag; the
    spec's step 3 sets [truncated = (iterations reached the cap before
    t >= T)], read off the state in which the loop stopped. *)
Definition truncated (s : DecodeState) : bool :=
  (cap <=? iters s) && (t s <? enc_T).

(** The whole decode: every pass advances [t] by at least one frame, so
    [enc_T] passes are enough fuel for any run (see [run_fuel_enough]). *)
Definition decode : outcome := run (Z.to_nat enc_T) init_state.

(** *** Observations used to state the properties *)

(** The loop variables when the run ended, normally or by an exception. *)
Definition outcome_state (o : outcome) : option DecodeState :=
  match o with
  | Finished s => Some s
  | Raised _ s => Some s
  | OutOfFuel => None
  end.

(** The label [best] that the pass starting in [s] computes on line 76. *)
Definition best_label (s : DecodeState) : option Z :=
  match dec_sess_run enc_hidden (last_label s) (lstm_h s) (lstm_c s) with
  | None => None
  | Some (joint, _, _) =>
      match Py.getitem joint (t s) with
      | None => None
      | Some logits =>
          option_map Z.of_nat
            (np_argmax score_le score_isnan (Py.slice_to logits (blank_id + 1)))
      end
  end.

(** The LSTM state that the decoder session hands back during the pass
    starting in [s] (lines 73-74). *)
Definition session_state (s : DecodeState) : option (tensor * tensor) :=
  match dec_sess_run enc_hidden (last_label s) (lstm_h s) (lstm_c s) with
  | None => None
  | Some (_, h', c') => Some (h', c')
  end.

(** A decoder session that never fails and that, on every frame below
    [enc_T], ranks highest a label satisfying [best_ok] in the
    vocabulary+blank segment and an index satisfying [dur_ok] in the
    duration segment. *)
Definition joint_ranks (best_ok dur_ok : Z -> Prop) : Prop :=
  forall label h c, exists joint h' c',
    dec_sess_run enc_hidden label h c = Some (joint, h', c') /\
    forall k, 0 <= k < enc_T ->
      exists logits b di,
        Py.getitem joint k = Some logits /\
        np_argmax score_le score_isnan
          (Py.slice_to logits (blank_id + 1)) = Some b /\
        best_ok (Z.of_nat b) /\
        np_argmax score_le score_isnan
          (Py.slice_from logits (blank_id + 1)) = Some di /\
        dur_ok (Z.of_nat di).

End Decode.
End Tdt.

(** ** The transcript (line 85) *)

Module Transcript.
Local Open Scope N_scope.

(** A Python [str]: its sequence of Unicode code points. *)
Definition pystr : Type := list N.

(** An ASCII literal as a Python [str]. *)
Definition str (s : string) : pystr := map N_of_ascii (list_ascii_of_string s).

(** U+2581, the subword-boundary marker of the SentencePiece vocabulary. *)
Definition marker : N := 0x2581.
Definition space : N := 0x20.

(** [c.isspace()] for one code point: the characters [str.strip()] removes. *)
Definition isspace (c : N) : bool :=
  ((0x09 <=? c) && (c <=? 0x0D)) || ((0x1C <=? c) && (c <=? 0x20))
  || (c =? 0x85) || (c =? 0xA0) || (c =? 0x1680)
  || ((0x2000 <=? c) && (c <=? 0x200A))
  || (c =? 0x2028) || (c =? 0x2029) || (c =? 0x202F) || (c =? 0x205F)
  || (c =? 0x3000).

(** [s.replace('\u2581', ' ')] *)
Definition replace_marker (s : pystr) : pystr :=
  map (fun c => if c =? marker then space else c) s.

Fixpoint lstrip (s : pystr) : pystr :=
  match s with
  | [] => []
  | c :: r => if isspace c then lstrip r else s
  end.

Definition rstrip (s : pystr) : pystr := rev (lstrip (rev s)).

(** [s.strip()] *)
Definition strip (s : pystr) : pystr := rstrip (lstrip s).

(** The generator [vocab[tid] for tid in tokens if tid < len(vocab)];
    [None] when a subscript raises IndexError. *)
Fixpoint pieces (vocab : list pystr) (tokens : list Z) : option (list pystr) :=
  match tokens with
  | [] => Some []
  | tid :: rest =>
      if (tid <? Py.len vocab)%Z then
        match Py.getitem vocab tid with
        | None => None
        | Some p => option_map (cons p) (pieces vocab rest)
        end
      else pieces vocab rest
  end.

(** [''.join(...)] *)
Definition join (ps : list pystr) : pystr := List.concat ps.

(** Line 85. *)
Definition text (vocab : list pystr) (tokens : list Z) : option pystr :=
  option_map (fun ps => strip (replace_marker (join ps))) (pieces vocab tokens).

(** The assembler in the words of the specification: ids outside
    [[0, vocabularySize)] are dropped, the remaining pieces are concatenated
    in order, every marker becomes a space, and the result is trimmed. *)
Definition in_vocabulary (vocabulary : list pystr) (id : Z) : bool :=
  (0 <=? id)%Z && (id <? Py.len vocabulary)%Z.

Definition assemble (tokenIds : list Z) (vocabulary : list pystr) : pystr :=
  strip (replace_marker
    (List.concat (map (fun id => nth (Z.to_nat id) vocabulary [])
                 (filter (in_vocabulary vocabulary) tokenIds)))).

(** The vocabulary of Scenario D: [U+2581 hi, U+2581 there, foo, bar]. *)
Definition scenario_D_vocab : list pystr :=
  [marker :: str "hi"; marker :: str "there"; str "foo"; str "bar"].

End Transcript.

(** ** Stub decoder sessions for concrete runs *)

Module Stub.

(** [n] scores, all 0 except a 1 at index [k]. *)
Definition onehot (n k : nat) : list Z :=
  map (fun i => if Nat.eqb i k then 1 else 0) (seq 0 n).

(** A logit vector ranking label [v] highest among the 1025 vocabulary+blank
    entries and index [d] highest among the 5 duration entries. *)
Definition logits (v d : nat) : list Z := onehot 1025 v ++ onehot 5 d.

(** A session answering [logits v d] on each of [frames] frames; its LSTM
    state tensors count the calls. *)
Definition session (v d frames : nat)
  : unit -> Z -> Z -> Z -> option (list (list Z) * Z * Z) :=
  fun _ _ h c => Some (repeat (logits v d) frames, h + 1, c + 1).

Definition isnan (x : Z) : bool := false.

(** The decode of the script ([max_step_multiplier = 10]) against a stub. *)
Definition decode (v d frames : nat) (enc_T : Z) : Tdt.outcome :=
  Tdt.decode Z.leb isnan (session v d frames) tt enc_T 0 10.

End Stub.

(** ** Passes that complete *)

Module TdtPass.

Section Pass.
Context {score tensor hidden : Type}.
Variable score_le : score -> score -> bool.
Variable score_isnan : score -> bool.
Variable dec_sess_run :
  hidden -> Z -> tensor -> tensor -> option (list (list score) * tensor * tensor).
Variable enc_hidden : hidden.
Variable enc_T : Z.

(** The pass starting in [s] meets no exception: the session answers, its
    joint tensor has a frame [t], the vocabulary+blank segment is not empty
    and, unless blank wins, the duration segment is not empty and its
    argmax is an index of [tdt_durations]. *)
Definition pass_ok (s : @Tdt.DecodeState tensor) : Prop :=
  exists joint h' c' logits b,
    dec_sess_run enc_hidden (Tdt.last_label s) (Tdt.lstm_h s) (Tdt.lstm_c s)
      = Some (joint, h', c') /\
    Py.getitem joint (Tdt.t s) = Some logits /\
    np_argmax score_le score_isnan (Py.slice_to logits (Tdt.blank_id + 1))
      = Some b /\
    (Z.of_nat b = Tdt.blank_id \/
     exists dur_idx d,
       np_argmax score_le score_isnan
         (Py.slice_from logits (Tdt.blank_id + 1)) = Some dur_idx /\
       Py.getitem Tdt.tdt_durations (Z.of_nat dur_idx) = Some d).

(** A session that never fails and whose logit vectors, on every frame below
    [enc_T], hold the [blank_id + 1] vocabulary+blank scores followed by
    one to five duration scores. *)
Definition well_shaped : Prop :=
  forall label h c, exists joint h' c',
    dec_sess_run enc_hidden label h c = Some (joint, h', c') /\
    forall k, 0 <= k < enc_T ->
      exists logits,
        Py.getitem joint k = Some logits /\
        Tdt.blank_id + 1 < Py.len logits
          <= Tdt.blank_id + 1 + Py.len Tdt.tdt_durations.

End Pass.
End TdtPass.

(** ** Further Python primitives *)

Module PyList.

(** [l.pop(i)], the list left behind: a negative index counts from the end,
    an index outside the list raises IndexError ([None]). *)
Definition pop {A} (l : list A) (i : Z) : option (list A) :=
  let k := if i <? 0 then Py.len l + i else i in
  if (k <? 0) || (Py.len l <=? k) then None
  else Some (firstn (Z.to_nat k) l ++ skipn (S (Z.to_nat k)) l).

(** [reversed(range(n))] *)
Definition reversed_range (n : nat) : list Z := map Z.of_nat (rev (seq 0 n)).

End PyList.

Module PyStr.
Import Transcript.

(** [a == b] on strings *)
Fixpoint eqb (a b : pystr) : bool :=
  match a, b with
  | [], [] => true
  | x :: a', y :: b' => (x =? y)%N && eqb a' b'
  | _, _ => false
  end.

(** [hay.startswith(needle)] *)
Fixpoint startswith (needle hay : pystr) : bool :=
  match needle, hay with
  | [], _ => true
  | x :: n', y :: h' => (x =? y)%N && startswith n' h'
  | _ :: _, [] => false
  end.

(** [needle in hay] *)
Fixpoint contains (needle hay : pystr) : bool :=
  startswith needle hay ||
  match hay with
  | [] => false
  | _ :: h' => contains needle h'
  end.

End PyStr.

(** ** Frame counts
    ([test_tdt_decode.py] lines 41-44, [verify_encoder.py] lines 105-109) *)

Module Frames.

(** [((T + 7) // 8) * 8] *)
Definition padded_T (T : Z) : Z := ((T + 7) / 8) * 8.

(** The width [padded_T - T] handed to [np.pad] on line 44. *)
Definition pad_width (T : Z) : Z := padded_T T - T.

Definition hop_length : Z := 160.
Definition win_length : Z := 400.

(** [max(1, (n_frames - win_length) // hop_length + 1)] *)
Definition num_frames (n_frames : Z) : Z :=
  Z.max 1 ((n_frames - win_length) / hop_length + 1).

Definition padded_frames (n_frames : Z) : Z := padded_T (num_frames n_frames).

End Frames.

(** ** The vocabulary file
    ([extract_vocab.py] lines 86-88 write it, [test_tdt_decode.py] lines
    11-12 read it) *)

Module VocabFile.
Import Transcript.
Local Open Scope N_scope.

Definition LF : N := 0x0A.
Definition CR : N := 0x0D.

(** The text handed to [f.write], one [piece + "\n"] per piece. *)
Definition written (pieces : list pystr) : pystr :=
  List.concat (map (fun piece => piece ++ [LF]) pieces).

(** Text-mode output: every LF of the text becomes [os.linesep]. *)
Definition write_text (linesep : pystr) (s : pystr) : pystr :=
  flat_map (fun c => if c =? LF then linesep else [c]) s.

(** Text-mode input with universal newlines: CR LF and a lone CR are read
    as LF. *)
Fixpoint read_text (file : pystr) : pystr :=
  match file with
  | [] => []
  | c :: r =>
      if c =? CR then
        match r with
        | c' :: r' => if c' =? LF then LF :: read_text r' else LF :: read_text r
        | [] => [LF]
        end
      else c :: read_text r
  end.

(** The line boundaries of [str.splitlines]. *)
Definition is_linebreak (c : N) : bool :=
  (c =? 0x0A) || (c =? 0x0B) || (c =? 0x0C) || (c =? 0x0D)
  || (c =? 0x1C) || (c =? 0x1D) || (c =? 0x1E) || (c =? 0x85)
  || (c =? 0x2028) || (c =? 0x2029).

(** A piece that contains no line boundary. *)
Definition one_line (piece : pystr) : Prop :=
  Forall (fun c => is_linebreak c = false) piece.

(** [cur] is the line collected so far.  A line is closed at each boundary
    (CR LF counting as one); text left after the last boundary is a line of
    its own, and nothing follows a final boundary. *)
Fixpoint splitlines_from (cur : pystr) (s : pystr) : list pystr :=
  match s with
  | [] => match cur with [] => [] | _ => [cur] end
  | c :: r =>
      if is_linebreak c then
        cur :: (if c =? CR then
                  match r with
                  | c' :: r' =>
                      if c' =? LF then splitlines_from [] r'
                      else splitlines_from [] r
                  | [] => []
                  end
                else splitlines_from [] r)
      else splitlines_from (cur ++ [c]) r
  end.

(** [s.splitlines()] *)
Definition splitlines (s : pystr) : list pystr := splitlines_from [] s.

(** [vocab = f.read().splitlines()] on the file that [extract_vocab.py]
    wrote for [pieces] on a platform whose line separator is [linesep]. *)
Definition vocab (linesep : pystr) (pieces : list pystr) : list pystr :=
  splitlines (read_text (write_text linesep (written pieces))).

End VocabFile.

(** ** [find_tokenizer_model] ([extract_vocab.py] lines 32-47) *)

Module ExtractVocab.
Import Transcript.

Section Find.
Context {path : Type}.
(** [path.name], the final component of a path. *)
Variable name : path -> pystr.
(** [str.lower] *)
Variable lower : pystr -> pystr.

(** Lines 33-37, over the paths that [rglob("*.model")] yields. *)
Definition candidates (listing : list path) : list path :=
  filter (fun p => PyStr.contains (str "tokenizer") (lower (name p))) listing.

(** Lines 39-47. *)
Definition find_tokenizer_model (listing : list path) : option path :=
  match candidates listing with
  | [] => None
  | first :: _ =>
      match find (fun p => PyStr.eqb (name p) (str "tokenizer.model"))
                 (candidates listing) with
      | Some p => Some p
      | None => Some first
      end
  end.

End Find.

(** [str.lower] on ASCII letters, the other code points left alone; used for
    concrete runs on ASCII file names. *)
Definition ascii_lower (s : pystr) : pystr :=
  map (fun c => if (65 <=? c)%N && (c <=? 90)%N then (c + 32)%N else c) s.

End ExtractVocab.

(** ** ONNX graphs ([patch_decoder.py], [patch_encoder.py])

    A graph is modelled with the repeated fields the scripts read or write.
    [array] is the type of the numpy arrays behind initializers, [info] what
    a value description carries besides its name. *)

Module Onnx.
Import Transcript.

Section Graph.
Context {array info : Type}.

Record ValueInfoProto : Type := mkValueInfo {
  vi_name : pystr;
  vi_type : info
}.

(** An initializer: [onnx.numpy_helper.to_array] reads [tp_array],
    [from_array(a, name)] builds [mkTensor name a]. *)
Record TensorProto : Type := mkTensor {
  tp_name : pystr;
  tp_array : array
}.

Record NodeProto : Type := mkNode {
  node_name : pystr;
  node_input : list pystr
}.

Record GraphProto : Type := mkGraph {
  node : list NodeProto;
  initializer : list TensorProto;
  output : list ValueInfoProto;
  value_info : list ValueInfoProto
}.

(** *** [patch_decoder.py] *)

(** The [enumerate] loop of lines 33-35, [idx] being the index of the head. *)
Fixpoint find_from (idx : Z) (outputs : list ValueInfoProto) (name : pystr) : Z :=
  match outputs with
  | [] => -1
  | o :: rest =>
      if PyStr.eqb (vi_name o) name then idx else find_from (idx + 1) rest name
  end.

(** Lines 32-36. *)
Definition find_output_index (graph : GraphProto) (name : pystr) : Z :=
  find_from 0 (output graph) name.

(** The loop of lines 47-49 over the indices [idxs]: [None] when a subscript
    or a [pop] raises IndexError. *)
Fixpoint prune (idxs : list Z) (vi : list ValueInfoProto) (name : pystr)
  : option (list ValueInfoProto) :=
  match idxs with
  | [] => Some vi
  | i :: rest =>
      match Py.getitem vi i with
      | None => None
      | Some e =>
          if PyStr.eqb (vi_name e) name then
            match PyList.pop vi i with
            | None => None
            | Some vi' => prune rest vi' name
            end
          else prune rest vi name
      end
  end.

(** Lines 39-51: the flag returned and the graph as the call leaves it. *)
Definition remove_output (graph : GraphProto) (name : pystr)
  : option (bool * GraphProto) :=
  let index := find_output_index graph name in
  match (if index >=? 0 then PyList.pop (output graph) index
         else Some (output graph)) with
  | None => None
  | Some outputs' =>
      match prune (PyList.reversed_range (List.length (value_info graph)))
                  (value_info graph) name with
      | None => None
      | Some vi' =>
          Some (index >=? 0,
                mkGraph (node graph) (initializer graph) outputs' vi')
      end
  end.

(** *** [patch_encoder.py] *)

(** [int(a)] for an array [a]; [None] when the conversion raises. *)
Variable to_int : array -> option Z.
(** Lines 65-67 for the array [old] of the matched initializer: the array of
    the tensor built from [np.array([2], dtype=old.dtype)]; [None] when
    [to_array], [np.array] or [from_array] raises. *)
Variable array_two : array -> option array.

Definition target : pystr := str "/layers.0/self_attn/Constant_104_output_0".

(** Lines 42-53; [None] when [int(...)] raises. *)
Definition diagnose (graph : GraphProto) : option (bool * pystr * Z) :=
  match find (fun init => PyStr.eqb (tp_name init) target) (initializer graph) with
  | Some init =>
      match to_int (tp_array init) with
      | Some val => Some (negb (val =? 2), target, val)
      | None => None
      end
  | None => Some (false, target, -1)
  end.

(** Lines 63-69: the first initializer named [constant_name] is replaced;
    [None] when building the replacement raises. *)
Fixpoint patch_constant (inits : list TensorProto) (constant_name : pystr)
  : option (list TensorProto) :=
  match inits with
  | [] => Some []
  | init :: rest =>
      if PyStr.eqb (tp_name init) constant_name
      then match array_two (tp_array init) with
           | None => None
           | Some new_val => Some (mkTensor (tp_name init) new_val :: rest)
           end
      else option_map (cons init) (patch_constant rest constant_name)
  end.

Inductive patch_exn : Type :=
| ArrayError        (* building the replacement tensor raised, lines 65-67 *)
| InputIndexError   (* [node.input[3]] on a node with fewer than 4 inputs *)
| AssertionError.   (* the assertion of lines 76-78 *)

(** Lines 72-78: the number of Slice_3 nodes, or the exception raised. *)
Fixpoint check_slice3 (nodes : list NodeProto) (constant_name : pystr)
                      (slice3_count : Z) : patch_exn + Z :=
  match nodes with
  | [] => inr slice3_count
  | n :: rest =>
      if PyStr.contains (str "self_attn/Slice_3") (node_name n) then
        match Py.getitem (node_input n) 3 with
        | None => inl InputIndexError
        | Some axes =>
            if PyStr.eqb axes constant_name
            then check_slice3 rest constant_name (slice3_count + 1)
            else inl AssertionError
        end
      else check_slice3 rest constant_name slice3_count
  end.

(** Lines 84-85: [while len(vi) > 0: vi.pop()], for at most [fuel] passes. *)
Fixpoint clear_loop (fuel : nat) (vi : list ValueInfoProto)
  : option (list ValueInfoProto) :=
  if Py.len vi >? 0 then
    match fuel with
    | O => None
    | S fuel' => clear_loop fuel' (removelast vi)
    end
  else Some vi.

(** Lines 56-87: the count returned and the graph as the call leaves it, or
    the exception raised; [None] when the loop of lines 84-85 is out of
    fuel. *)
Definition patch_graph_fuel (fuel : nat) (graph : GraphProto)
                            (constant_name : pystr)
  : option (patch_exn + (Z * GraphProto)) :=
  match patch_constant (initializer graph) constant_name with
  | None => Some (inl ArrayError)
  | Some inits' =>
      match check_slice3 (node graph) constant_name 0 with
      | inl e => Some (inl e)
      | inr _ =>
          let vi_count := Py.len (value_info graph) in
          match clear_loop fuel (value_info graph) with
          | None => None
          | Some vi' =>
              Some (inr (vi_count,
                         mkGraph (node graph) inits' (output graph) vi'))
          end
      end
  end.

(** The loop removes one entry per pass: [len(value_info)] passes of fuel
    are enough (see [clear_loop_enough]). *)
Definition patch_graph (graph : GraphProto) (constant_name : pystr)
  : option (patch_exn + (Z * GraphProto)) :=
  patch_graph_fuel (List.length (value_info graph)) graph constant_name.

End Graph.
End Onnx.

(** ** Concrete inputs for the graph and file scripts *)

Module Sample.
Import Transcript.

(** A session whose logit vectors have three entries only: no blank entry
    and no duration segment. *)
Definition short_session
  : unit -> Z -> Z -> Z -> option (list (list Z) * Z * Z) :=
  fun _ _ h c => Some ([[5; 1; 2]], h + 1, c + 1).

(** A session whose every call raises. *)
Definition failing_session
  : unit -> Z -> Z -> Z -> option (list (list Z) * Z * Z) :=
  fun _ _ _ _ => None.

(** A vocabulary of 1024 pieces. *)
Definition full_vocab : list pystr := repeat (str "a") 1024.

(** Paths given by their names, in the order a directory walk yields them. *)
Definition listing : list pystr :=
  [str "notes.model"; str "My_Tokenizer.model"; str "tokenizer.model"].

(** Integer arrays with their dimension: a 0-dimensional array holds one
    number, a 1-dimensional array a list of numbers. *)
Inductive ndarray : Type :=
| Scalar (x : Z)
| Vector (l : list Z).

(** [int(a)] as numpy before 2.4 computes it: every array of exactly one
    element converts. *)
Definition to_int_legacy (a : ndarray) : option Z :=
  match a with
  | Scalar x => Some x
  | Vector [x] => Some x
  | Vector _ => None
  end.

(** [int(a)] as numpy 2.4 and later compute it: only a 0-dimensional array
    converts, any other raises TypeError. *)
Definition to_int_strict (a : ndarray) : option Z :=
  match a with
  | Scalar x => Some x
  | Vector _ => None
  end.

(** [np.array([2], dtype=old.dtype)] for an integer array: always
    1-dimensional, of one element. *)
Definition array_two (old : ndarray) : option ndarray := Some (Vector [2]).

(** An encoder graph with one Slice_3 node and the axis constant [axis]. *)
Definition encoder_graph (axis : ndarray) : @Onnx.GraphProto ndarray unit :=
  Onnx.mkGraph
    [Onnx.mkNode (str "/layers.0/self_attn/Slice_3")
                 [str "data"; str "starts"; str "ends"; Onnx.target]]
    [Onnx.mkTensor (str "/pre_encode/Constant_output_0") (Vector [1]);
     Onnx.mkTensor Onnx.target axis]
    [Onnx.mkValueInfo (str "outputs") tt]
    [Onnx.mkValueInfo (str "stale") tt].

(** The same graph after [patch_graph]. *)
Definition patched_encoder_graph : @Onnx.GraphProto ndarray unit :=
  Onnx.mkGraph
    [Onnx.mkNode (str "/layers.0/self_attn/Slice_3")
                 [str "data"; str "starts"; str "ends"; Onnx.target]]
    [Onnx.mkTensor (str "/pre_encode/Constant_output_0") (Vector [1]);
     Onnx.mkTensor Onnx.target (Vector [2])]
    [Onnx.mkValueInfo (str "outputs") tt]
    [].

(** A decoder graph with the stale output [prednet_lengths]. *)
Definition decoder_graph : @Onnx.GraphProto (list Z) unit :=
  Onnx.mkGraph []
    []
    [Onnx.mkValueInfo (str "outputs") tt;
     Onnx.mkValueInfo (str "prednet_lengths") tt;
     Onnx.mkValueInfo (str "output_states_1") tt]
    [Onnx.mkValueInfo (str "prednet_lengths") tt;
     Onnx.mkValueInfo (str "hidden") tt].

Definition patched_decoder_graph : @Onnx.GraphProto (list Z) unit :=
  Onnx.mkGraph []
    []
    [Onnx.mkValueInfo (str "outputs") tt;
     Onnx.mkValueInfo (str "output_states_1") tt]
    [Onnx.mkValueInfo (str "hidden") tt].

End Sample.

(** * Properties *)

(** ** Sequence primitives and argmax *)

Lemma slice_to_len {A} (l : list A) (k : Z) :
  0 <= k -> Py.len (Py.slice_to l k) <= k.
Proof.
  intros Hk. unfold Py.slice_to, Py.len.
  destruct (k <? 0) eqn:E; [apply Z.ltb_lt in E; lia|].
  rewrite length_firstn. lia.
Qed.

Lemma getitem_nonneg {A} (l : list A) (i : Z) (x : A) :
  0 <= i -> Py.getitem l i = Some x -> i < Py.len l /\ In x l.
Proof.
  intros Hi. unfold Py.getitem, Py.len.
  destruct (i <? 0) eqn:E; [apply Z.ltb_lt in E; lia|].
  intros H. split.
  - assert (Z.to_nat i < List.length l)%nat
      by (apply nth_error_Some; congruence).
    lia.
  - eapply nth_error_In; eauto.
Qed.

Lemma getitem_in_range {A} (l : list A) (i : Z) :
  0 <= i < Py.len l -> exists x, Py.getitem l i = Some x.
Proof.
  intros Hi. unfold Py.getitem, Py.len in *.
  destruct (i <? 0) eqn:E; [apply Z.ltb_lt in E; lia|].
  destruct (nth_error l (Z.to_nat i)) eqn:N; [eauto|].
  apply nth_error_None in N. lia.
Qed.

Section ArgmaxFacts.
Context {score : Type}.
Variable score_le : score -> score -> bool.
Variable score_isnan : score -> bool.

Lemma argmax_scan_bound (l : list score) :
  forall mp best i, (best < i)%nat ->
    (argmax_scan score_le score_isnan mp best i l < i + List.length l)%nat.
Proof.
  induction l as [|x r IH]; intros mp best i Hb; cbn [argmax_scan List.length].
  - lia.
  - destruct (score_isnan mp); [lia|].
    destruct (negb (score_le x mp)).
    + specialize (IH x i (S i)). lia.
    + specialize (IH mp best (S i)). lia.
Qed.

(** [np.argmax] answers with an index of its argument. *)
Lemma np_argmax_bound (l : list score) (b : nat) :
  np_argmax score_le score_isnan l = Some b -> (b < List.length l)%nat.
Proof.
  destruct l as [|x r]; cbn [np_argmax]; [discriminate|].
  intros [= <-]. pose proof (argmax_scan_bound r x 0%nat 1%nat).
  cbn [List.length]. lia.
Qed.

(** [np.argmax] raises exactly on the empty array. *)
Lemma np_argmax_none (l : list score) :
  np_argmax score_le score_isnan l = None <-> l = [].
Proof. destruct l; cbn; split; congruence. Qed.
End ArgmaxFacts.

(** ** One pass of the loop *)

Section BodyFacts.
Context {score tensor hidden : Type}.
Variable score_le : score -> score -> bool.
Variable score_isnan : score -> bool.
Variable dec_sess_run :
  hidden -> Z -> tensor -> tensor -> option (list (list score) * tensor * tensor).
Variable enc_hidden : hidden.

Local Abbreviation state := (@Tdt.DecodeState tensor).
Local Abbreviation loop_body :=
  (Tdt.loop_body score_le score_isnan dec_sess_run enc_hidden).
Local Abbreviation best_label :=
  (Tdt.best_label score_le score_isnan dec_sess_run enc_hidden).
Local Abbreviation session_state := (Tdt.session_state dec_sess_run enc_hidden).

(** The label chosen on line 76 is an index of [logits[:blank_id + 1]]. *)
Lemma best_in_segment (logits : list score) (b : nat) :
  np_argmax score_le score_isnan
    (Py.slice_to logits (Tdt.blank_id + 1)) = Some b ->
  0 <= Z.of_nat b <= Tdt.blank_id.
Proof.
  intros H. apply np_argmax_bound in H.
  pose proof (slice_to_len logits (Tdt.blank_id + 1)) as L.
  unfold Py.len, Tdt.blank_id in *. lia.
Qed.

Lemma duration_range (i d : Z) :
  Py.getitem Tdt.tdt_durations i = Some d -> 0 <= i -> 0 <= d <= 4.
Proof.
  intros H Hi. apply getitem_nonneg in H; [|assumption].
  destruct H as [_ H]. cbn in H.
  destruct H as [<-|[<-|[<-|[<-|[<-|[]]]]]]; lia.
Qed.

(** What a completed pass does to the loop variables. *)
Lemma loop_body_next (s s' : state) :
  loop_body s = Tdt.Next s' ->
  Tdt.iters s' = Tdt.iters s + 1 /\
  session_state s = Some (Tdt.lstm_h s', Tdt.lstm_c s') /\
  ((best_label s = Some Tdt.blank_id /\
    Tdt.t s' = Tdt.t s + 1 /\
    Tdt.tokens s' = Tdt.tokens s /\
    Tdt.last_label s' = Tdt.last_label s)
   \/
   (exists best d,
      best_label s = Some best /\
      0 <= best < Tdt.blank_id /\
      0 <= d <= 4 /\
      Tdt.t s' = Tdt.t s + Z.max 1 d /\
      Tdt.tokens s' = Tdt.tokens s ++ [best] /\
      Tdt.last_label s' = best)).
Proof.
  unfold Tdt.loop_body, Tdt.best_label, Tdt.session_state.
  destruct (dec_sess_run _ _ _ _) as [[[joint h'] c']|]; [|discriminate].
  destruct (Py.getitem joint _) as [logits|]; [|discriminate].
  destruct (np_argmax _ _ (Py.slice_to _ _)) as [b|] eqn:Hb; [|discriminate].
  pose proof (best_in_segment _ _ Hb) as Hr.
  cbn [option_map].
  destruct (Z.eqb_spec (Z.of_nat b) Tdt.blank_id) as [Heq|Hne].
  - intros [= <-]. cbn. rewrite Heq. intuition.
  - destruct (np_argmax _ _ (Py.slice_from _ _)) as [di|]; [|discriminate].
    destruct (Py.getitem Tdt.tdt_durations _) as [d|] eqn:Hd; [|discriminate].
    apply duration_range in Hd; [|lia].
    intros [= <-]. cbn. repeat split; try reflexivity.
    right. exists (Z.of_nat b), d. repeat split; try reflexivity; lia.
Qed.

(** A pass that raises has counted itself and has not moved [t]. *)
Lemma loop_body_raise (s s' : state) (e : exn) :
  loop_body s = Tdt.Raise e s' ->
  Tdt.iters s' = Tdt.iters s + 1 /\ Tdt.t s' = Tdt.t s.
Proof.
  unfold Tdt.loop_body.
  destruct (dec_sess_run _ _ _ _) as [[[joint h'] c']|];
    [|intros [= <- <-]; cbn; auto].
  destruct (Py.getitem joint _) as [logits|]; [|intros [= <- <-]; cbn; auto].
  destruct (np_argmax _ _ (Py.slice_to _ _)) as [b|];
    [|intros [= <- <-]; cbn; auto].
  destruct (Z.of_nat b =? Tdt.blank_id); [discriminate|].
  destruct (np_argmax _ _ (Py.slice_from _ _)) as [di|];
    [|intros [= <- <-]; cbn; auto].
  destruct (Py.getitem Tdt.tdt_durations _) as [d|];
    [discriminate|intros [= <- <-]; cbn; auto].
Qed.

(** Every completed pass moves [t] forward by 1 to 4 frames. *)
Lemma loop_body_advance (s s' : state) :
  loop_body s = Tdt.Next s' -> Tdt.t s + 1 <= Tdt.t s' <= Tdt.t s + 4.
Proof.
  intros H. apply loop_body_next in H.
  destruct H as (_ & _ & [(_ & Ht & _)|(best & d & _ & _ & Hd & Ht & _)]); lia.
Qed.

(** What a raising pass may have appended before it raised. *)
Lemma loop_body_raise_tokens (s s' : state) (e : exn) :
  loop_body s = Tdt.Raise e s' ->
  Tdt.tokens s' = Tdt.tokens s \/
  exists best, 0 <= best < Tdt.blank_id /\
               Tdt.tokens s' = Tdt.tokens s ++ [best].
Proof.
  unfold Tdt.loop_body.
  destruct (dec_sess_run _ _ _ _) as [[[joint h'] c']|];
    [|intros [= <- <-]; cbn; auto].
  destruct (Py.getitem joint _) as [logits|]; [|intros [= <- <-]; cbn; auto].
  destruct (np_argmax _ _ (Py.slice_to _ _)) as [b|] eqn:Hb;
    [|intros [= <- <-]; cbn; auto].
  pose proof (best_in_segment _ _ Hb) as Hr.
  destruct (Z.eqb_spec (Z.of_nat b) Tdt.blank_id) as [Heq|Hne]; [discriminate|].
  assert (0 <= Z.of_nat b < Tdt.blank_id) by lia.
  destruct (np_argmax _ _ (Py.slice_from _ _)) as [di|];
    [|intros [= <- <-]; cbn; eauto].
  destruct (Py.getitem Tdt.tdt_durations _) as [d|];
    [discriminate|intros [= <- <-]; cbn; eauto].
Qed.

(** The pass taken when the session answers and a non-blank label wins. *)
Lemma loop_body_emit (s : state) joint h' c' logits (b di : nat) (d : Z) :
  dec_sess_run enc_hidden (Tdt.last_label s) (Tdt.lstm_h s) (Tdt.lstm_c s)
    = Some (joint, h', c') ->
  Py.getitem joint (Tdt.t s) = Some logits ->
  np_argmax score_le score_isnan
    (Py.slice_to logits (Tdt.blank_id + 1)) = Some b ->
  Z.of_nat b <> Tdt.blank_id ->
  np_argmax score_le score_isnan
    (Py.slice_from logits (Tdt.blank_id + 1)) = Some di ->
  Py.getitem Tdt.tdt_durations (Z.of_nat di) = Some d ->
  loop_body s =
    Tdt.Next (Tdt.mkState (Tdt.tokens s ++ [Z.of_nat b])
                          (Tdt.t s + Z.max 1 d) (Z.of_nat b)
                          (Tdt.iters s + 1) h' c').
Proof.
  intros Hrun Hj Hb Hne Hdi Hd. unfold Tdt.loop_body.
  rewrite Hrun, Hj, Hb.
  destruct (Z.eqb_spec (Z.of_nat b) Tdt.blank_id); [contradiction|].
  rewrite Hdi, Hd. reflexivity.
Qed.

Lemma len_snoc {A} (l : list A) (x : A) : Py.len (l ++ [x]) = Py.len l + 1.
Proof. unfold Py.len. rewrite length_app. cbn. lia. Qed.

End BodyFacts.

(** ** Runs of the loop *)

Section DecodeFacts.
Context {score tensor hidden : Type}.
Variable score_le : score -> score -> bool.
Variable score_isnan : score -> bool.
Variable dec_sess_run :
  hidden -> Z -> tensor -> tensor -> option (list (list score) * tensor * tensor).
Variable enc_hidden : hidden.
Variable enc_T : Z.
Variable zeros : tensor.
Variable max_step_multiplier : Z.

Local Abbreviation state := (@Tdt.DecodeState tensor).
Local Abbreviation loop_body :=
  (Tdt.loop_body score_le score_isnan dec_sess_run enc_hidden).
Local Abbreviation loop_cond := (Tdt.loop_cond enc_T max_step_multiplier).
Local Abbreviation best_label :=
  (Tdt.best_label score_le score_isnan dec_sess_run enc_hidden).
Local Abbreviation session_state := (Tdt.session_state dec_sess_run enc_hidden).
Local Abbreviation init_state := (Tdt.init_state zeros).
Local Abbreviation run :=
  (Tdt.run score_le score_isnan dec_sess_run enc_hidden enc_T
           max_step_multiplier).
Local Abbreviation step :=
  (Tdt.step score_le score_isnan dec_sess_run enc_hidden enc_T
            max_step_multiplier).
Local Abbreviation reachable :=
  (Tdt.reachable score_le score_isnan dec_sess_run enc_hidden enc_T zeros
                 max_step_multiplier).
Local Abbreviation decode :=
  (Tdt.decode score_le score_isnan dec_sess_run enc_hidden enc_T zeros
              max_step_multiplier).
Local Abbreviation cap := (Tdt.cap enc_T max_step_multiplier).
Local Abbreviation truncated := (Tdt.truncated enc_T max_step_multiplier).
Local Abbreviation joint_ranks :=
  (Tdt.joint_ranks score_le score_isnan dec_sess_run enc_hidden enc_T).

Lemma loop_cond_true (s : state) :
  loop_cond s = true <-> Tdt.t s < enc_T /\ Tdt.iters s < cap.
Proof.
  unfold Tdt.loop_cond, Tdt.cap.
  rewrite andb_true_iff, !Z.ltb_lt. tauto.
Qed.

Lemma loop_cond_false (s : state) :
  loop_cond s = false <-> enc_T <= Tdt.t s \/ cap <= Tdt.iters s.
Proof.
  unfold Tdt.loop_cond, Tdt.cap.
  rewrite andb_false_iff, !Z.ltb_ge. tauto.
Qed.

Lemma run_next (fuel : nat) (s s' : state) :
  loop_cond s = true -> loop_body s = Tdt.Next s' ->
  run (S fuel) s = run fuel s'.
Proof. intros Hc Hb. cbn [Tdt.run]. rewrite Hc, Hb. reflexivity. Qed.

Lemma run_finished (fuel : nat) (s : state) :
  loop_cond s = false -> run fuel s = Tdt.Finished s.
Proof. intros Hc. destruct fuel; cbn [Tdt.run]; rewrite Hc; reflexivity. Qed.

(** Each pass consumes at least one frame, so [enc_T - t] passes suffice. *)
Lemma run_fuel_enough (fuel : nat) :
  forall s : state,
    (Z.to_nat (enc_T - Tdt.t s) <= fuel)%nat -> run fuel s <> Tdt.OutOfFuel.
Proof.
  induction fuel as [|fuel IH]; intros s Hf; cbn [Tdt.run].
  - destruct (loop_cond s) eqn:Hc; [|discriminate].
    apply loop_cond_true in Hc. lia.
  - destruct (loop_cond s) eqn:Hc; [|discriminate].
    destruct (loop_body s) as [s'|e s'] eqn:Hb; [|discriminate].
    apply IH. apply loop_body_advance in Hb. lia.
Qed.

(** More fuel does not change the outcome of a run that had enough. *)
Lemma run_fuel_more (fuel : nat) :
  forall (s : state) (fuel' : nat),
    run fuel s <> Tdt.OutOfFuel -> (fuel <= fuel')%nat ->
    run fuel' s = run fuel s.
Proof.
  induction fuel as [|fuel IH]; intros s fuel' Hr Hle.
  - cbn [Tdt.run] in *. destruct (loop_cond s) eqn:Hc; [congruence|].
    now apply run_finished.
  - destruct fuel' as [|fuel']; [lia|].
    cbn [Tdt.run] in *. destruct (loop_cond s); [|reflexivity].
    destruct (loop_body s) as [s'|e s']; [|reflexivity].
    apply IH; [assumption|lia].
Qed.

(** The state in which a run stops normally is reached by completed passes
    and falsifies the guard. *)
Lemma run_finished_reachable (fuel : nat) :
  forall s s' : state,
    reachable s -> run fuel s = Tdt.Finished s' ->
    reachable s' /\ loop_cond s' = false.
Proof.
  induction fuel as [|fuel IH]; intros s s' Hs; cbn [Tdt.run].
  - destruct (loop_cond s) eqn:Hc; [discriminate|].
    intros [= <-]. auto.
  - destruct (loop_cond s) eqn:Hc; [|intros [= <-]; auto].
    destruct (loop_body s) as [s1|e s1] eqn:Hb; [|discriminate].
    apply IH. eapply Tdt.reach_step; [exact Hs|split; assumption].
Qed.

(** A run that raises does so in a pass started from a reachable state. *)
Lemma run_raised_reachable (fuel : nat) :
  forall (s s' : state) (e : exn),
    reachable s -> run fuel s = Tdt.Raised e s' ->
    exists s0, reachable s0 /\ loop_cond s0 = true /\
               loop_body s0 = Tdt.Raise e s'.
Proof.
  induction fuel as [|fuel IH]; intros s s' e Hs; cbn [Tdt.run].
  - destruct (loop_cond s); discriminate.
  - destruct (loop_cond s) eqn:Hc; [|discriminate].
    destruct (loop_body s) as [s1|e1 s1] eqn:Hb.
    + apply IH. eapply Tdt.reach_step; [exact Hs|split; assumption].
    + intros [= <- <-]. eauto.
Qed.

(** The numeric invariant of the loop: [iters] counts the passes, each of
    which consumed at least one frame below [enc_T]. *)
Lemma reachable_bounds (s : state) :
  reachable s ->
  0 <= Tdt.iters s <= Tdt.t s /\
  (0 <= enc_T -> Tdt.iters s <= enc_T /\ Tdt.t s <= enc_T + 3) /\
  (0 <= cap -> Tdt.iters s <= cap).
Proof.
  induction 1 as [|s s' Hs IH [Hc Hb]].
  - cbn. lia.
  - apply loop_cond_true in Hc.
    assert (Ht := Hb). apply loop_body_advance in Ht.
    apply loop_body_next in Hb. destruct Hb as (Hi & _). lia.
Qed.

Lemma reachable_tokens (s : state) :
  reachable s -> Forall (fun id => 0 <= id < Tdt.blank_id) (Tdt.tokens s).
Proof.
  induction 1 as [|s s' Hs IH [Hc Hb]]; [constructor|].
  apply loop_body_next in Hb.
  destruct Hb as (_ & _ & [(_ & _ & -> & _)|(best & d & _ & Hr & _ & _ & -> & _)]).
  - exact IH.
  - apply Forall_app. split; [exact IH|]. constructor; [exact Hr|constructor].
Qed.

Lemma decode_state_tokens (s : state) :
  Tdt.outcome_state decode = Some s ->
  Forall (fun id => 0 <= id < Tdt.blank_id) (Tdt.tokens s).
Proof.
  unfold Tdt.decode.
  destruct (run _ _) as [s1|e s1|] eqn:Hr; cbn; intros [= <-].
  - apply reachable_tokens.
    eapply run_finished_reachable; [apply Tdt.reach_init|exact Hr].
  - apply run_raised_reachable in Hr; [|apply Tdt.reach_init].
    destruct Hr as (s0 & Hs0 & _ & Hb).
    apply reachable_tokens in Hs0.
    apply loop_body_raise_tokens in Hb.
    destruct Hb as [->|(best & Hr & ->)]; [exact Hs0|].
    apply Forall_app. split; [exact Hs0|]. constructor; [exact Hr|constructor].
Qed.

Lemma decode_state_iters (s : state) :
  0 <= enc_T -> 0 <= cap ->
  Tdt.outcome_state decode = Some s ->
  0 <= Tdt.iters s <= cap /\ Tdt.iters s <= enc_T.
Proof.
  intros HT Hcap. unfold Tdt.decode.
  destruct (run _ _) as [s1|e s1|] eqn:Hr; cbn; intros [= <-].
  - apply run_finished_reachable in Hr; [|apply Tdt.reach_init].
    destruct Hr as [Hr _]. apply reachable_bounds in Hr. lia.
  - apply run_raised_reachable in Hr; [|apply Tdt.reach_init].
    destruct Hr as (s0 & Hs0 & Hc & Hb).
    apply reachable_bounds in Hs0. apply loop_cond_true in Hc.
    apply loop_body_raise in Hb. lia.
Qed.

(** ** The stated properties of the decode loop *)

(** C1. For every valid length [enc_T >= 1] and every decoder session, the
    decode loop terminates: [enc_T] passes of fuel are enough, any larger
    amount of fuel gives the same outcome, and the loop has executed at
    most [enc_T * max_step_multiplier] iterations when it stops, normally
    or by an exception (the script has [max_step_multiplier = 10]). *)
Theorem decode_terminates_within_cap :
  1 <= enc_T -> 1 <= max_step_multiplier ->
  decode <> Tdt.OutOfFuel /\
  (forall fuel, (Z.to_nat enc_T <= fuel)%nat -> run fuel init_state = decode) /\
  (exists s, Tdt.outcome_state decode = Some s /\
             0 <= Tdt.iters s <= enc_T * max_step_multiplier).
Proof.
  intros HT Hm.
  assert (Hne : decode <> Tdt.OutOfFuel).
  { unfold Tdt.decode. apply run_fuel_enough. cbn. lia. }
  split; [exact Hne|]. split.
  - intros fuel Hf. unfold Tdt.decode. now apply run_fuel_more.
  - destruct (Tdt.outcome_state decode) as [s|] eqn:Ho.
    + exists s. split; [reflexivity|].
      apply decode_state_iters in Ho; unfold Tdt.cap in *; nia.
    + destruct decode; cbn in Ho; congruence.
Qed.

(** C2 (amended). On every pass whose best label is [blank_id], [t] advances
    by exactly 1, no token is emitted and [last_label] is kept, but the
    LSTM state carried into the next pass is the one the decoder session
    returned in this pass: lines 73-74 commit it before the branch. *)
Theorem blank_step_commits_state (s s' : state) :
  step s s' -> best_label s = Some Tdt.blank_id ->
  Tdt.t s' = Tdt.t s + 1 /\
  Tdt.tokens s' = Tdt.tokens s /\
  Tdt.last_label s' = Tdt.last_label s /\
  Tdt.iters s' = Tdt.iters s + 1 /\
  session_state s = Some (Tdt.lstm_h s', Tdt.lstm_c s').
Proof.
  clear zeros. intros [_ Hb] Hbest. apply loop_body_next in Hb.
  destruct Hb as (Hi & Hst & [(_ & Ht & Htok & Hl)|(best & d & Hb' & Hr & _)]).
  - auto.
  - rewrite Hbest in Hb'. injection Hb' as <-. lia.
Qed.

(** C3 (amended). Throughout every decode with [enc_T >= 0], at the top of
    the loop [0 <= t <= enc_T + 3] (a pass starts only with [t < enc_T] and
    advances by at most 4 frames, so [t] may overshoot [enc_T]), [t] does
    not decrease from one pass to the next, and the step counter stays
    within [enc_T * max_step_multiplier]. *)
Theorem frame_index_invariant (s : state) :
  0 <= enc_T -> 1 <= max_step_multiplier -> reachable s ->
  0 <= Tdt.t s <= enc_T + 3 /\
  0 <= Tdt.iters s <= enc_T * max_step_multiplier /\
  (forall s', step s s' -> Tdt.t s < enc_T /\ Tdt.t s <= Tdt.t s').
Proof.
  intros HT Hm Hs. pose proof (reachable_bounds s Hs) as (Hi & Hb & Hc).
  unfold Tdt.cap in *.
  split; [lia|]. split; [nia|].
  intros s' [Hcond Hbody].
  apply loop_cond_true in Hcond. apply loop_body_advance in Hbody. lia.
Qed.

(** C4. In every decode run [t] does not decrease from one pass to the
    next, the run ends, and when it ends normally with [truncated = false]
    the final [t] is at least [enc_T]. *)
Theorem t_monotone_reaches_end :
  (forall s s' : state, step s s' -> Tdt.t s <= Tdt.t s') /\
  decode <> Tdt.OutOfFuel /\
  (forall fuel s, run fuel init_state = Tdt.Finished s ->
                  truncated s = false -> enc_T <= Tdt.t s).
Proof.
  split; [|split].
  - intros s s' [_ Hb]. apply loop_body_advance in Hb. lia.
  - unfold Tdt.decode. apply run_fuel_enough. cbn. lia.
  - intros fuel s Hr Htr.
    apply run_finished_reachable in Hr; [|apply Tdt.reach_init].
    destruct Hr as [_ Hc]. apply loop_cond_false in Hc.
    unfold Tdt.truncated in Htr. apply andb_false_iff in Htr.
    rewrite Z.leb_gt, Z.ltb_ge in Htr. lia.
Qed.

(** C6 (amended). In every decode run, whatever the encoder output and the
    model outputs, no emitted id is [blank_id] and every emitted id lies in
    [[0, blank_id)]; it is a valid id of every vocabulary that has at least
    [blank_id] pieces.  (Against a shorter vocabulary an emitted id may lie
    beyond it; line 85 filters such ids out.) *)
Theorem emitted_ids_valid (s : state) :
  reachable s \/ Tdt.outcome_state decode = Some s ->
  Forall (fun id => id <> Tdt.blank_id /\ 0 <= id < Tdt.blank_id)
         (Tdt.tokens s) /\
  (forall vocab : list Transcript.pystr,
      Tdt.blank_id <= Py.len vocab ->
      Forall (fun id => 0 <= id < Py.len vocab) (Tdt.tokens s)).
Proof.
  intros H.
  assert (Hv : Forall (fun id => 0 <= id < Tdt.blank_id) (Tdt.tokens s)).
  { destruct H; [now apply reachable_tokens|now apply decode_state_tokens]. }
  split.
  - eapply Forall_impl; [|exact Hv]. cbn. intros; lia.
  - intros vocab Hlen. eapply Forall_impl; [|exact Hv]. cbn. intros; lia.
Qed.

(** Every completed pass increases [t]; a decode of [enc_T >= 1] frames
    stops within [enc_T] iterations, a normal stop has [t >= enc_T], and no
    truncated state is reachable. *)
Lemma loop_stops_within_T :
  1 <= enc_T -> 1 <= max_step_multiplier ->
  (forall s s' : state, step s s' -> Tdt.t s + 1 <= Tdt.t s') /\
  decode <> Tdt.OutOfFuel /\
  (forall s, Tdt.outcome_state decode = Some s -> Tdt.iters s <= enc_T) /\
  (forall s, decode = Tdt.Finished s ->
             enc_T <= Tdt.t s /\ truncated s = false) /\
  (forall s, reachable s -> truncated s = false).
Proof.
  intros HT Hm.
  assert (Hcap : enc_T <= cap) by (unfold Tdt.cap; nia).
  assert (Htr : forall s, reachable s -> truncated s = false).
  { intros s Hs. apply reachable_bounds in Hs. unfold Tdt.truncated.
    apply andb_false_iff. rewrite Z.leb_gt, Z.ltb_ge. lia. }
  split; [|split; [|split; [|split]]].
  - intros s s' [_ Hb]. apply loop_body_advance in Hb. lia.
  - unfold Tdt.decode. apply run_fuel_enough. cbn. lia.
  - intros s Ho. apply decode_state_iters in Ho; lia.
  - intros s Hd.
    apply run_finished_reachable in Hd; [|apply Tdt.reach_init].
    destruct Hd as [Hs Hc]. split; [|now apply Htr].
    apply reachable_bounds in Hs. apply loop_cond_false in Hc. lia.
  - exact Htr.
Qed.

(** With a session that never ranks blank highest and always picks a
    duration of 0, each pass emits one token and moves one frame. *)
Lemma zero_duration_run :
  joint_ranks (fun best => best <> Tdt.blank_id)
              (fun dur_idx => Py.getitem Tdt.tdt_durations dur_idx = Some 0) ->
  enc_T <= cap ->
  forall (fuel : nat) (s : state),
    0 <= Tdt.t s <= enc_T -> Tdt.iters s = Tdt.t s ->
    (Z.to_nat (enc_T - Tdt.t s) <= fuel)%nat ->
    exists s', run fuel s = Tdt.Finished s' /\
               Tdt.t s' = enc_T /\ Tdt.iters s' = enc_T /\
               Py.len (Tdt.tokens s') =
                 Py.len (Tdt.tokens s) + (enc_T - Tdt.t s).
Proof.
  intros Hj Hcap. induction fuel as [|fuel IH]; intros s Ht Hi Hf.
  - exists s. rewrite run_finished; [|apply loop_cond_false; lia].
    repeat split; lia.
  - destruct (Z.eq_dec (Tdt.t s) enc_T) as [He|Hlt].
    + exists s. rewrite run_finished; [|apply loop_cond_false; lia].
      repeat split; lia.
    + destruct (Hj (Tdt.last_label s) (Tdt.lstm_h s) (Tdt.lstm_c s))
        as (joint & h' & c' & Hrun & Hframes).
      destruct (Hframes (Tdt.t s)) as (logits & b & di & Hg & Hb & Hne & Hdi & Hd);
        [lia|].
      pose proof (loop_body_emit _ _ _ _ s _ _ _ _ _ _ _ Hrun Hg Hb Hne Hdi Hd)
    as Hbody.
      erewrite run_next; [|apply loop_cond_true; lia|exact Hbody].
      match goal with |- context [run fuel ?s1] => destruct (IH s1) as (s' & Hr & H1 & H2 & H3) end;
        cbn [Tdt.t Tdt.iters Tdt.tokens] in *; try lia.
      exists s'. rewrite len_snoc in H3. repeat split; try assumption; lia.
Qed.

(** C5 (amended). For every [enc_T >= 1], if the session never ranks blank
    highest and always selects a duration index whose value is 0, the
    [max(1, duration)] floor makes every pass advance one frame: decode
    stops normally after exactly [enc_T] iterations with [t = enc_T], the
    output holds [enc_T] tokens and [truncated = false]. *)
Theorem zero_duration_not_truncated :
  1 <= enc_T -> 1 <= max_step_multiplier ->
  joint_ranks (fun best => best <> Tdt.blank_id)
              (fun dur_idx => Py.getitem Tdt.tdt_durations dur_idx = Some 0) ->
  exists s, decode = Tdt.Finished s /\
            Tdt.t s = enc_T /\ Tdt.iters s = enc_T /\
            Py.len (Tdt.tokens s) = enc_T /\
            truncated s = false.
Proof.
  intros HT Hm Hj.
  assert (Hcap : enc_T <= cap) by (unfold Tdt.cap; nia).
  destruct (zero_duration_run Hj Hcap (Z.to_nat enc_T) init_state)
    as (s & Hr & Ht & Hi & Hl); cbn; try lia.
  exists s. cbn in Hl. repeat split; try assumption; try lia.
  unfold Tdt.truncated. apply andb_false_iff. right. apply Z.ltb_ge. lia.
Qed.

End DecodeFacts.

(** ** Passes that complete and passes that raise *)

Section PassFacts.
Context {score tensor hidden : Type}.
Variable score_le : score -> score -> bool.
Variable score_isnan : score -> bool.
Variable dec_sess_run :
  hidden -> Z -> tensor -> tensor -> option (list (list score) * tensor * tensor).
Variable enc_hidden : hidden.
Variable enc_T : Z.
Variable zeros : tensor.
Variable max_step_multiplier : Z.

Local Abbreviation state := (@Tdt.DecodeState tensor).
Local Abbreviation loop_body :=
  (Tdt.loop_body score_le score_isnan dec_sess_run enc_hidden).
Local Abbreviation loop_cond := (Tdt.loop_cond enc_T max_step_multiplier).
Local Abbreviation step :=
  (Tdt.step score_le score_isnan dec_sess_run enc_hidden enc_T
            max_step_multiplier).
Local Abbreviation reachable :=
  (Tdt.reachable score_le score_isnan dec_sess_run enc_hidden enc_T zeros
                 max_step_multiplier).
Local Abbreviation decode :=
  (Tdt.decode score_le score_isnan dec_sess_run enc_hidden enc_T zeros
              max_step_multiplier).
Local Abbreviation truncated := (Tdt.truncated enc_T max_step_multiplier).
Local Abbreviation pass_ok :=
  (TdtPass.pass_ok score_le score_isnan dec_sess_run enc_hidden).
Local Abbreviation well_shaped :=
  (TdtPass.well_shaped dec_sess_run enc_hidden enc_T).

(** A pass completes, moving [t] forward, exactly when it meets none of the
    exceptions; otherwise it raises and leaves [t] where it was. *)
Lemma loop_body_cases (s : state) :
  (pass_ok s /\
   exists s', loop_body s = Tdt.Next s' /\
              Tdt.t s + 1 <= Tdt.t s' <= Tdt.t s + 4) \/
  (~ pass_ok s /\
   exists e s', loop_body s = Tdt.Raise e s' /\ Tdt.t s' = Tdt.t s).
Proof.
  destruct (loop_body s) as [s'|e s'] eqn:Hbody.
  - left. split; [|exists s'; split; [reflexivity|]].
    + revert Hbody. unfold Tdt.loop_body, TdtPass.pass_ok.
      destruct (dec_sess_run _ _ _ _) as [[[joint h'] c']|]; [|discriminate].
      destruct (Py.getitem joint _) as [logits|] eqn:Hg; [|discriminate].
      destruct (np_argmax _ _ (Py.slice_to _ _)) as [b|] eqn:Hb;
        [|discriminate].
      destruct (Z.eqb_spec (Z.of_nat b) Tdt.blank_id) as [Heq|Hne].
      * intros _. exists joint, h', c', logits, b. auto.
      * destruct (np_argmax _ _ (Py.slice_from _ _)) as [di|] eqn:Hdi;
          [|discriminate].
        destruct (Py.getitem Tdt.tdt_durations _) as [d|] eqn:Hd;
          [|discriminate].
        intros _. exists joint, h', c', logits, b.
        repeat split; auto. right. exists di, d. auto.
    + eapply loop_body_advance. exact Hbody.
  - right. split; [|exists e, s'; split; [reflexivity|]].
    + intros (joint & h' & c' & logits & b & Hrun & Hg & Hb & Hdur).
      revert Hbody. unfold Tdt.loop_body. rewrite Hrun, Hg, Hb.
      destruct Hdur as [Heq|(di & d & Hdi & Hd)].
      * rewrite Heq, Z.eqb_refl. discriminate.
      * destruct (Z.of_nat b =? Tdt.blank_id); [discriminate|].
        rewrite Hdi, Hd. discriminate.
    + eapply loop_body_raise. exact Hbody.
Qed.

(** A well-shaped session lets every pass below [enc_T] complete. *)
Lemma well_shaped_pass_ok (s : state) :
  well_shaped -> 0 <= Tdt.t s < enc_T -> pass_ok s.
Proof.
  intros Hw Ht.
  destruct (Hw (Tdt.last_label s) (Tdt.lstm_h s) (Tdt.lstm_c s))
    as (joint & h' & c' & Hrun & Hframes).
  destruct (Hframes (Tdt.t s) Ht) as (logits & Hg & Hlen).
  assert (Hseg : Py.len (Py.slice_to logits (Tdt.blank_id + 1)) = Tdt.blank_id + 1).
  { unfold Py.slice_to, Py.len in *. unfold Tdt.blank_id in *. cbn [Z.add Z.ltb].
    cbn. rewrite length_firstn. lia. }
  destruct (np_argmax score_le score_isnan (Py.slice_to logits (Tdt.blank_id + 1)))
    as [b|] eqn:Hb.
  2:{ apply np_argmax_none in Hb. rewrite Hb in Hseg. discriminate. }
  exists joint, h', c', logits, b. repeat split; auto.
  destruct (Z.eq_dec (Z.of_nat b) Tdt.blank_id) as [Heq|Hne]; [now left|right].
  assert (Hdur : 0 < Py.len (Py.slice_from logits (Tdt.blank_id + 1))
                   <= Py.len Tdt.tdt_durations).
  { unfold Py.slice_from, Py.len in *. unfold Tdt.blank_id in *. cbn [Z.add Z.ltb].
    cbn. cbn in Hlen. rewrite length_skipn. lia. }
  destruct (np_argmax score_le score_isnan (Py.slice_from logits (Tdt.blank_id + 1)))
    as [di|] eqn:Hdi.
  2:{ apply np_argmax_none in Hdi. rewrite Hdi in Hdur. cbn in Hdur. lia. }
  apply np_argmax_bound in Hdi.
  destruct (getitem_in_range Tdt.tdt_durations (Z.of_nat di)) as (d & Hd).
  { unfold Py.len in *. lia. }
  exists di, d. auto.
Qed.

(** C10 (amended). Every completed pass increases [t] by at least 1
    (exactly 1 on blank, [max(1, duration) >= 1] on an emit), and a pass
    fails to complete only by an exception: the session call fails, the
    joint tensor has no frame [t], a logit segment is empty or the duration
    index is outside the table.  Hence for every decoder session and every
    [max_step_multiplier >= 1] the loop ends after at most [enc_T]
    iterations, either normally with [t >= enc_T] or by such an exception;
    with a well-shaped session it ends normally with [t >= enc_T]; and the
    iteration cap is never what stops the loop: no truncated state is
    reachable. *)
Theorem cap_never_reached :
  1 <= enc_T -> 1 <= max_step_multiplier ->
  (forall s : state,
      (pass_ok s /\
       exists s', loop_body s = Tdt.Next s' /\
                  Tdt.t s + 1 <= Tdt.t s' <= Tdt.t s + 4) \/
      (~ pass_ok s /\
       exists e s', loop_body s = Tdt.Raise e s' /\ Tdt.t s' = Tdt.t s)) /\
  (forall s s' : state, step s s' -> Tdt.t s + 1 <= Tdt.t s') /\
  decode <> Tdt.OutOfFuel /\
  (forall s, Tdt.outcome_state decode = Some s -> Tdt.iters s <= enc_T) /\
  (forall s, decode = Tdt.Finished s ->
             enc_T <= Tdt.t s /\ truncated s = false) /\
  (forall e s, decode = Tdt.Raised e s ->
     exists s0, reachable s0 /\ Tdt.t s0 < enc_T /\ ~ pass_ok s0 /\
                loop_body s0 = Tdt.Raise e s) /\
  (well_shaped ->
   exists s, decode = Tdt.Finished s /\ enc_T <= Tdt.t s /\
             Tdt.iters s <= enc_T /\ truncated s = false) /\
  (forall s, reachable s -> truncated s = false).
Proof.
  intros HT Hm.
  destruct (loop_stops_within_T score_le score_isnan dec_sess_run enc_hidden
              enc_T zeros max_step_multiplier HT Hm)
    as (Hstep & Hfuel & Hiters & Hfin & Htr).
  assert (Hraised : forall e s, decode = Tdt.Raised e s ->
            exists s0, reachable s0 /\ Tdt.t s0 < enc_T /\ ~ pass_ok s0 /\
                       loop_body s0 = Tdt.Raise e s).
  { intros e s Hd. unfold Tdt.decode in Hd.
    eapply run_raised_reachable in Hd; [|apply Tdt.reach_init].
    destruct Hd as (s0 & Hs0 & Hc & Hb). exists s0.
    unfold Tdt.loop_cond in Hc. apply andb_true_iff in Hc.
    destruct Hc as [Hc _]. apply Z.ltb_lt in Hc.
    repeat split; auto.
    destruct (loop_body_cases s0) as [(_ & s' & Hn & _)|(Hno & _)];
      [congruence|exact Hno]. }
  split; [exact loop_body_cases|]. split; [exact Hstep|].
  split; [exact Hfuel|]. split; [exact Hiters|]. split; [exact Hfin|].
  split; [exact Hraised|]. split; [|exact Htr].
  intros Hw. destruct decode as [s|e s|] eqn:Hd.
  - exists s. destruct (Hfin s eq_refl) as [Ht Htrunc].
    split; [reflexivity|]. split; [exact Ht|]. split; [|exact Htrunc].
    apply Hiters. reflexivity.
  - exfalso. destruct (Hraised e s eq_refl) as (s0 & Hs0 & Ht0 & Hno & _).
    apply Hno. apply well_shaped_pass_ok; [exact Hw|].
    apply reachable_bounds in Hs0. lia.
  - congruence.
Qed.

End PassFacts.

(** ** Scenario B: id 7 with duration index 2 on three frames *)

Section ScenarioB.
Context {score tensor hidden : Type}.
Variable score_le : score -> score -> bool.
Variable score_isnan : score -> bool.
Variable dec_sess_run :
  hidden -> Z -> tensor -> tensor -> option (list (list score) * tensor * tensor).
Variable enc_hidden : hidden.
Variable zeros : tensor.

Local Abbreviation step :=
  (Tdt.step score_le score_isnan dec_sess_run enc_hidden 3 10).
Local Abbreviation decode :=
  (Tdt.decode score_le score_isnan dec_sess_run enc_hidden 3 zeros 10).

(** C7. With [enc_T = 3], [tdt_durations = [0,1,2,3,4]] and a session that
    on every pass ranks id 7 highest in the vocabulary+blank segment and
    index 2 highest in the duration segment, decode emits 7 at [t = 0] and
    moves to [t = 2], emits 7 again and moves to [t = 4 >= 3], and returns
    [[7, 7]] with [truncated = false]. *)
Theorem scenario_B_output :
  Tdt.joint_ranks score_le score_isnan dec_sess_run enc_hidden 3
                  (fun best => best = 7) (fun dur_idx => dur_idx = 2) ->
  exists s1 s2,
    step (Tdt.init_state zeros) s1 /\
    Tdt.tokens s1 = [7] /\ Tdt.t s1 = 2 /\
    step s1 s2 /\
    Tdt.tokens s2 = [7; 7] /\ Tdt.t s2 = 4 /\
    decode = Tdt.Finished s2 /\
    Tdt.truncated 3 10 s2 = false.
Proof.
  intros Hj.
  assert (Hemit : forall s : @Tdt.DecodeState tensor,
             0 <= Tdt.t s < 3 ->
             exists h' c',
               Tdt.loop_body score_le score_isnan dec_sess_run enc_hidden s =
               Tdt.Next (Tdt.mkState (Tdt.tokens s ++ [7]) (Tdt.t s + 2) 7
                                     (Tdt.iters s + 1) h' c')).
  { intros s Ht.
    destruct (Hj (Tdt.last_label s) (Tdt.lstm_h s) (Tdt.lstm_c s))
      as (joint & h' & c' & Hrun & Hframes).
    destruct (Hframes (Tdt.t s) Ht) as (logits & b & di & Hg & Hb & H7 & Hdi & H2).
    exists h', c'.
    assert (Hd : Py.getitem Tdt.tdt_durations (Z.of_nat di) = Some 2)
      by (rewrite H2; reflexivity).
    assert (Hne : Z.of_nat b <> Tdt.blank_id) by (rewrite H7; discriminate).
    rewrite (loop_body_emit _ _ _ _ _ _ _ _ _ _ _ _ Hrun Hg Hb Hne Hdi Hd).
    rewrite H7. reflexivity. }
  destruct (Hemit (Tdt.init_state zeros)) as (h1 & c1 & Hb1); [cbn; lia|].
  cbn [Tdt.tokens Tdt.t Tdt.iters Tdt.init_state app Z.add] in Hb1.
  match type of Hb1 with _ = Tdt.Next ?s => set (s1 := s) in * end.
  destruct (Hemit s1) as (h2 & c2 & Hb2); [cbn; lia|].
  cbn [Tdt.tokens Tdt.t Tdt.iters s1 app] in Hb2.
  match type of Hb2 with _ = Tdt.Next ?s => set (s2 := s) in * end.
  exists s1, s2.
  assert (Hc1 : Tdt.loop_cond 3 10 (Tdt.init_state zeros) = true) by reflexivity.
  assert (Hc2 : Tdt.loop_cond 3 10 s1 = true) by reflexivity.
  repeat split; try assumption; try reflexivity.
  unfold Tdt.decode. change (Z.to_nat 3) with 3%nat.
  rewrite (run_next _ _ _ _ _ _ _ _ _ Hc1 Hb1).
  rewrite (run_next _ _ _ _ _ _ _ _ _ Hc2 Hb2).
  apply run_finished. reflexivity.
Qed.

End ScenarioB.

(** ** The transcript *)

Module TranscriptFacts.
Import Transcript.

(** [lstrip] removes a prefix made of whitespace only. *)
Lemma lstrip_prefix (s : pystr) :
  exists pre, s = pre ++ lstrip s /\ forallb isspace pre = true.
Proof.
  induction s as [|c r (pre & Hr & Hp)]; [exists []; auto|].
  cbn [lstrip]. destruct (isspace c) eqn:Hc.
  - exists (c :: pre). cbn. rewrite Hc, Hp. split; [congruence|reflexivity].
  - exists []. auto.
Qed.

Lemma lstrip_head (s r : pystr) (c : N) :
  lstrip s = c :: r -> isspace c = false.
Proof.
  induction s as [|x s IH]; cbn [lstrip]; [discriminate|].
  destruct (isspace x) eqn:Hx; [exact IH|]. intros [= <- _]. exact Hx.
Qed.

(** A final non-space character survives [lstrip]. *)
Lemma lstrip_snoc (s : pystr) (c : N) :
  isspace c = false -> exists s', lstrip (s ++ [c]) = s' ++ [c].
Proof.
  intros Hc. induction s as [|x s (s' & IH)]; cbn [lstrip app].
  - rewrite Hc. exists []. reflexivity.
  - destruct (isspace x); [eauto|]. exists (x :: s). reflexivity.
Qed.

(** [strip] removes whitespace only, at both ends. *)
Lemma strip_split (s : pystr) :
  exists pre post,
    s = pre ++ strip s ++ post /\
    forallb isspace pre = true /\ forallb isspace post = true.
Proof.
  destruct (lstrip_prefix s) as (pre & Hs & Hpre).
  destruct (lstrip_prefix (rev (lstrip s))) as (q & Hq & Hqs).
  exists pre, (rev q). unfold strip, rstrip. repeat split.
  - rewrite <- rev_app_distr, <- Hq, rev_involutive. exact Hs.
  - exact Hpre.
  - rewrite forallb_forall in *. intros x Hx. apply Hqs. now apply in_rev.
Qed.

Lemma strip_first (s r : pystr) (c : N) :
  strip s = c :: r -> isspace c = false.
Proof.
  unfold strip, rstrip. destruct (lstrip s) as [|x l] eqn:Hl; [discriminate|].
  pose proof (lstrip_head _ _ _ Hl) as Hx.
  cbn [rev]. destruct (lstrip_snoc (rev l) x Hx) as (s' & ->).
  rewrite rev_app_distr. cbn. intros [= <- _]. exact Hx.
Qed.

Lemma strip_last (s r : pystr) (c : N) :
  strip s = r ++ [c] -> isspace c = false.
Proof.
  unfold strip, rstrip. intros H.
  apply (f_equal (@rev N)) in H. rewrite rev_involutive, rev_app_distr in H.
  cbn in H. eapply lstrip_head; eauto.
Qed.

Lemma strip_incl (s : pystr) (c : N) : In c (strip s) -> In c s.
Proof.
  destruct (strip_split s) as (pre & post & Hs & _). intros H.
  rewrite Hs. apply in_or_app. right. apply in_or_app. now left.
Qed.

Lemma replace_marker_clean (s : pystr) : ~ In marker (replace_marker s).
Proof.
  unfold replace_marker. rewrite in_map_iff. intros (c & Hc & _).
  destruct (N.eqb_spec c marker); [discriminate|congruence].
Qed.

(** On non-negative ids the generator yields, in order, the pieces of the
    ids below the vocabulary size. *)
Lemma pieces_nonneg (vocab : list pystr) (tokens : list Z) :
  Forall (fun id => (0 <= id)%Z) tokens ->
  pieces vocab tokens =
    Some (map (fun id => nth (Z.to_nat id) vocab [])
              (filter (in_vocabulary vocab) tokens)).
Proof.
  induction 1 as [|tid rest Htid _ IH]; [reflexivity|].
  cbn [pieces filter]. unfold in_vocabulary at 1.
  replace (0 <=? tid)%Z with true by (symmetry; now apply Z.leb_le).
  cbn [andb]. destruct (Z.ltb_spec tid (Py.len vocab)) as [Hlt|Hge].
  - unfold Py.getitem.
    replace (tid <? 0)%Z with false by (symmetry; apply Z.ltb_ge; lia).
    rewrite (nth_error_nth' vocab [])
      by (unfold Py.len in Hlt; lia).
    rewrite IH. reflexivity.
  - exact IH.
Qed.

Lemma filter_in_vocabulary_id (vocab : list pystr) (tokens : list Z) :
  Forall (fun id => (0 <= id < Py.len vocab)%Z) tokens ->
  filter (in_vocabulary vocab) tokens = tokens.
Proof.
  induction 1 as [|tid rest Htid _ IH]; [reflexivity|].
  cbn [filter]. unfold in_vocabulary at 1.
  replace (0 <=? tid)%Z with true by (symmetry; apply Z.leb_le; lia).
  replace (tid <? Py.len vocab)%Z with true by (symmetry; apply Z.ltb_lt; lia).
  cbn. now rewrite IH.
Qed.

Lemma filter_in_vocabulary_idem (vocab : list pystr) (tokens : list Z) :
  filter (in_vocabulary vocab) (filter (in_vocabulary vocab) tokens)
  = filter (in_vocabulary vocab) tokens.
Proof.
  induction tokens as [|tid rest IH]; [reflexivity|].
  cbn [filter]. destruct (in_vocabulary vocab tid) eqn:E; [|exact IH].
  cbn [filter]. now rewrite E, IH.
Qed.

(** C8 (amended). The transcript concatenates the resolved pieces in emission
    order, replaces every marker by one space and trims whitespace at both
    ends: no marker is left, only whitespace is trimmed, and the result
    neither starts nor ends with whitespace.  A piece without marker
    continues the previous word: for the vocabulary
    [U+2581 hi, U+2581 there, foo, bar] and the ids [0, 2, 1] the transcript
    is [hifoo there]. *)
Theorem text_assembly :
  (forall vocab tokens,
      Forall (fun id => (0 <= id < Py.len vocab)%Z) tokens ->
      text vocab tokens =
        Some (strip (replace_marker
                (List.concat (map (fun id => nth (Z.to_nat id) vocab []) tokens))))) /\
  (forall vocab tokens out,
      text vocab tokens = Some out ->
      ~ In marker out /\
      (forall c r, out = c :: r -> isspace c = false) /\
      (forall c r, out = r ++ [c] -> isspace c = false)) /\
  (forall s, exists pre post,
      s = pre ++ strip s ++ post /\
      forallb isspace pre = true /\ forallb isspace post = true) /\
  text scenario_D_vocab [0; 2; 1]%Z = Some (str "hifoo there").
Proof.
  split; [|split; [|split]].
  - intros vocab tokens Hr. unfold text.
    rewrite pieces_nonneg
      by (eapply Forall_impl; [|exact Hr]; cbn; intros; lia).
    rewrite filter_in_vocabulary_id by assumption. reflexivity.
  - intros vocab tokens out. unfold text.
    destruct (pieces vocab tokens) as [ps|]; [|discriminate].
    cbn [option_map]. intros [= <-]. split; [|split].
    + intros H. apply strip_incl in H. now apply replace_marker_clean in H.
    + intros c r. apply strip_first.
    + intros c r. apply strip_last.
  - apply strip_split.
  - reflexivity.
Qed.

(** On non-negative ids the transcript never fails: each id at or above the
    vocabulary size is dropped as if never emitted, and the remaining ids
    are resolved and assembled as the specification's assembler does. *)
Lemma text_drops_ids_beyond_vocab (vocab : list pystr) (tokens : list Z) :
  Forall (fun id => (0 <= id)%Z) tokens ->
  text vocab tokens = Some (assemble tokens vocab) /\
  text vocab tokens = text vocab (filter (in_vocabulary vocab) tokens).
Proof.
  intros Hn. unfold text, assemble. split.
  - now rewrite pieces_nonneg.
  - rewrite !pieces_nonneg; trivial.
    + now rewrite filter_in_vocabulary_idem.
    + apply Forall_forall. intros id Hid. apply filter_In in Hid.
      rewrite Forall_forall in Hn. now apply Hn.
Qed.

End TranscriptFacts.

(** ** The transcript of a decode *)

Section DecodeTranscript.
Context {score tensor hidden : Type}.
Variable score_le : score -> score -> bool.
Variable score_isnan : score -> bool.
Variable dec_sess_run :
  hidden -> Z -> tensor -> tensor -> option (list (list score) * tensor * tensor).
Variable enc_hidden : hidden.
Variable enc_T : Z.
Variable zeros : tensor.
Variable max_step_multiplier : Z.

(** The ids handed to line 85 are argmax indices, never negative: on the
    output of the loop the transcript is always defined and agrees with the
    specification's assembler. *)
Lemma text_of_decode_defined (vocab : list Transcript.pystr) s :
  Tdt.outcome_state
    (Tdt.decode score_le score_isnan dec_sess_run enc_hidden enc_T zeros
                max_step_multiplier) = Some s ->
  Transcript.text vocab (Tdt.tokens s)
  = Some (Transcript.assemble (Tdt.tokens s) vocab).
Proof.
  intros Ho. apply decode_state_tokens in Ho.
  unfold Transcript.text, Transcript.assemble.
  rewrite TranscriptFacts.pieces_nonneg; [reflexivity|].
  eapply Forall_impl; [|exact Ho]. cbn. intros; lia.
Qed.

Lemma map_of_nat_nonneg (ids : list nat) :
  Forall (fun id => 0 <= id) (map Z.of_nat ids).
Proof. induction ids; constructor; [lia|assumption]. Qed.

Lemma nonneg_of_nat (tokens : list Z) :
  Forall (fun id => 0 <= id) tokens ->
  tokens = map Z.of_nat (map Z.to_nat tokens).
Proof.
  induction 1 as [|x l Hx _ IH]; [reflexivity|].
  cbn [map]. rewrite Z2Nat.id by assumption. now rewrite <- IH.
Qed.

(** C9. Token assembly drops each id outside [[0, vocabularySize)] as if it
    had never been emitted, resolves and assembles the remaining ids as the
    specification's assembler does, and never fails: for every vocabulary
    this holds on every sequence of argmax indices, and the id sequence
    that a decode hands to line 85, however it ended, is such a sequence. *)
Theorem transcript_drops_invalid_ids (vocab : list Transcript.pystr) :
  Tdt.decode score_le score_isnan dec_sess_run enc_hidden enc_T zeros
             max_step_multiplier <> Tdt.OutOfFuel /\
  (forall ids : list nat,
      Transcript.text vocab (map Z.of_nat ids)
      = Some (Transcript.assemble (map Z.of_nat ids) vocab) /\
      Transcript.text vocab (map Z.of_nat ids)
      = Transcript.text vocab
          (filter (Transcript.in_vocabulary vocab) (map Z.of_nat ids))) /\
  (forall s,
      Tdt.outcome_state
        (Tdt.decode score_le score_isnan dec_sess_run enc_hidden enc_T zeros
                    max_step_multiplier) = Some s ->
      (exists ids : list nat, Tdt.tokens s = map Z.of_nat ids) /\
      Transcript.text vocab (Tdt.tokens s)
      = Some (Transcript.assemble (Tdt.tokens s) vocab) /\
      Transcript.text vocab (Tdt.tokens s)
      = Transcript.text vocab
          (filter (Transcript.in_vocabulary vocab) (Tdt.tokens s))).
Proof.
  split; [|split].
  - unfold Tdt.decode. apply run_fuel_enough; [exact zeros|]. cbn. lia.
  - intros ids.
    apply TranscriptFacts.text_drops_ids_beyond_vocab, map_of_nat_nonneg.
  - intros s Ho. apply decode_state_tokens in Ho.
    assert (Hn : Forall (fun id => 0 <= id) (Tdt.tokens s))
      by (eapply Forall_impl; [|exact Ho]; cbn; intros; lia).
    split; [eexists; now apply nonneg_of_nat|].
    now apply TranscriptFacts.text_drops_ids_beyond_vocab.
Qed.

End DecodeTranscript.

(** ** Concrete runs *)

(** The states of the stub runs used below. *)
Lemma stub_blank_step :
  Tdt.step Z.leb Stub.isnan (Stub.session 1024 0 1) tt 1 10
           (Tdt.init_state 0) (Tdt.mkState [] 1 1024 1 1 1).
Proof. split; vm_compute; reflexivity. Defined.

Lemma stub_scenario_B_reachable :
  Tdt.reachable Z.leb Stub.isnan (Stub.session 7 2 3) tt 3 0 10
                (Tdt.mkState [7; 7] 4 7 2 2 2).
Proof.
  apply (Tdt.reach_step _ _ _ _ _ _ _ (Tdt.mkState [7] 2 7 1 1 1)).
  - apply (Tdt.reach_step _ _ _ _ _ _ _ (Tdt.init_state 0)).
    + apply Tdt.reach_init.
    + split; vm_compute; reflexivity.
  - split; vm_compute; reflexivity.
Defined.

(** The stub sessions rank as their parameters say. *)
Lemma stub_zero_duration_ranks :
  Tdt.joint_ranks Z.leb Stub.isnan (Stub.session 7 0 2) tt 2
    (fun best => best <> Tdt.blank_id)
    (fun dur_idx => Py.getitem Tdt.tdt_durations dur_idx = Some 0).
Proof.
  intros label h c. eexists _, _, _. split; [reflexivity|].
  intros k Hk. assert (k = 0 \/ k = 1) as [->| ->] by lia;
    exists (Stub.logits 7 0), 7%nat, 0%nat; repeat split;
    try (vm_compute; reflexivity); discriminate.
Defined.

Lemma stub_scenario_B_ranks :
  Tdt.joint_ranks Z.leb Stub.isnan (Stub.session 7 2 3) tt 3
    (fun best => best = 7) (fun dur_idx => dur_idx = 2).
Proof.
  intros label h c. eexists _, _, _. split; [reflexivity|].
  intros k Hk. assert (k = 0 \/ k = 1 \/ k = 2) as [->|[->| ->]] by lia;
    exists (Stub.logits 7 2), 7%nat, 2%nat; repeat split;
    vm_compute; reflexivity.
Defined.

Lemma decode_terminates_within_cap_witness :
  Stub.decode 7 2 3 3 <> Tdt.OutOfFuel /\
  (forall fuel, (3 <= fuel)%nat ->
     Tdt.run Z.leb Stub.isnan (Stub.session 7 2 3) tt 3 10 fuel
             (Tdt.init_state 0) = Stub.decode 7 2 3 3) /\
  (exists s, Tdt.outcome_state (Stub.decode 7 2 3 3) = Some s /\
             0 <= Tdt.iters s <= 3 * 10).
Proof.
  apply (decode_terminates_within_cap Z.leb Stub.isnan (Stub.session 7 2 3)
           tt 3 0 10); lia.
Defined.

Lemma blank_step_commits_state_witness :
  let s := Tdt.init_state 0 in
  let s' := Tdt.mkState [] 1 1024 1 1 1 in
  Tdt.t s' = Tdt.t s + 1 /\
  Tdt.tokens s' = Tdt.tokens s /\
  Tdt.last_label s' = Tdt.last_label s /\
  Tdt.iters s' = Tdt.iters s + 1 /\
  Tdt.session_state (Stub.session 1024 0 1) tt s = Some (1, 1).
Proof.
  apply (blank_step_commits_state Z.leb Stub.isnan (Stub.session 1024 0 1)
           tt 1 10 _ _ stub_blank_step).
  vm_compute. reflexivity.
Defined.

(** C2, as stated, fails: a pass that decides blank from the initial state
    (LSTM tensors 0) hands the tensors returned by the session (1) to the
    next pass. *)
Lemma blank_step_changes_state :
  let s := Tdt.init_state 0 in
  let s' := Tdt.mkState [] 1 1024 1 1 1 in
  Tdt.reachable Z.leb Stub.isnan (Stub.session 1024 0 1) tt 1 0 10 s /\
  Tdt.step Z.leb Stub.isnan (Stub.session 1024 0 1) tt 1 10 s s' /\
  Tdt.best_label Z.leb Stub.isnan (Stub.session 1024 0 1) tt s
    = Some Tdt.blank_id /\
  Tdt.lstm_h s' <> Tdt.lstm_h s /\ Tdt.lstm_c s' <> Tdt.lstm_c s.
Proof.
  cbv zeta. split; [apply Tdt.reach_init|]. split; [exact stub_blank_step|].
  split; [vm_compute; reflexivity|]. split; cbn; discriminate.
Qed.

Lemma frame_index_invariant_witness :
  let s := Tdt.mkState [7; 7] 4 7 2 2 2 in
  0 <= Tdt.t s <= 3 + 3 /\
  0 <= Tdt.iters s <= 3 * 10 /\
  (forall s', Tdt.step Z.leb Stub.isnan (Stub.session 7 2 3) tt 3 10 s s' ->
              Tdt.t s < 3 /\ Tdt.t s <= Tdt.t s').
Proof.
  apply (frame_index_invariant Z.leb Stub.isnan (Stub.session 7 2 3) tt 3 0 10);
    [lia|lia|exact stub_scenario_B_reachable].
Defined.

(** C3, as stated, fails: in Scenario B ([enc_T = 3]) the second emit moves
    [t] from 2 to 4, beyond [enc_T]. *)
Lemma frame_index_overshoots :
  let s := Tdt.mkState [7; 7] 4 7 2 2 2 in
  Tdt.reachable Z.leb Stub.isnan (Stub.session 7 2 3) tt 3 0 10 s /\
  ~ (0 <= Tdt.t s <= 3).
Proof. cbv zeta. split; [exact stub_scenario_B_reachable|cbn; lia]. Qed.

Lemma t_monotone_reaches_end_witness :
  Stub.decode 7 2 3 3 = Tdt.Finished (Tdt.mkState [7; 7] 4 7 2 2 2) /\
  Tdt.truncated 3 10 (Tdt.mkState [7; 7] 4 7 2 2 2) = false /\
  3 <= Tdt.t (Tdt.mkState [7; 7] 4 7 2 2 2 : @Tdt.DecodeState Z).
Proof.
  assert (Hd : Stub.decode 7 2 3 3 = Tdt.Finished (Tdt.mkState [7; 7] 4 7 2 2 2))
    by (vm_compute; reflexivity).
  split; [exact Hd|]. split; [reflexivity|].
  exact (proj2 (proj2 (t_monotone_reaches_end Z.leb Stub.isnan
                         (Stub.session 7 2 3) tt 3 0 10))
           3%nat _ Hd eq_refl).
Defined.

Lemma zero_duration_not_truncated_witness :
  exists s, Stub.decode 7 0 2 2 = Tdt.Finished s /\
            Tdt.t s = 2 /\ Tdt.iters s = 2 /\
            Py.len (Tdt.tokens s) = 2 /\
            Tdt.truncated 2 10 s = false.
Proof.
  apply (zero_duration_not_truncated Z.leb Stub.isnan (Stub.session 7 0 2)
           tt 2 0 10); [lia|lia|exact stub_zero_duration_ranks].
Defined.

(** C5, as stated, fails: with [enc_T = 2] and a session that always emits
    id 7 with duration 0, decode stops after 2 of the 20 allowed iterations,
    not truncated, with 2 tokens. *)
Lemma zero_duration_stops_before_cap :
  Tdt.joint_ranks Z.leb Stub.isnan (Stub.session 7 0 2) tt 2
    (fun best => best <> Tdt.blank_id)
    (fun dur_idx => Py.getitem Tdt.tdt_durations dur_idx = Some 0) /\
  Stub.decode 7 0 2 2 = Tdt.Finished (Tdt.mkState [7; 7] 2 7 2 2 2) /\
  Tdt.truncated 2 10 (Tdt.mkState [7; 7] 2 7 2 2 2) = false /\
  Tdt.cap 2 10 = 20 /\
  Py.len [7; 7] <> Tdt.cap 2 10.
Proof.
  split; [exact stub_zero_duration_ranks|].
  repeat split; try (vm_compute; reflexivity). vm_compute. discriminate.
Qed.

Lemma emitted_ids_valid_witness :
  Forall (fun id => id <> Tdt.blank_id /\ 0 <= id < Tdt.blank_id) [7; 7] /\
  (forall vocab : list Transcript.pystr,
      Tdt.blank_id <= Py.len vocab ->
      Forall (fun id => 0 <= id < Py.len vocab) [7; 7]).
Proof.
  apply (emitted_ids_valid Z.leb Stub.isnan (Stub.session 7 2 3) tt 3 0 10
           (Tdt.mkState [7; 7] 4 7 2 2 2)).
  right. vm_compute. reflexivity.
Defined.

(** C6, as stated, fails: the decode of Scenario B emits id 7, which is not
    below the size of the four-piece vocabulary of Scenario D. *)
Lemma emitted_id_beyond_short_vocab :
  Tdt.outcome_state (Stub.decode 7 2 3 3)
    = Some (Tdt.mkState [7; 7] 4 7 2 2 2) /\
  Py.len Transcript.scenario_D_vocab = 4 /\
  ~ Forall (fun id => id < Py.len Transcript.scenario_D_vocab /\
                      id <> Tdt.blank_id)
           (Tdt.tokens (Tdt.mkState [7; 7] 4 7 2 2 2 : @Tdt.DecodeState Z)).
Proof.
  split; [vm_compute; reflexivity|]. split; [reflexivity|].
  intros H. inversion H as [|x l [Hx _] _]; subst.
  vm_compute in Hx. discriminate.
Qed.

Lemma scenario_B_output_witness :
  exists s1 s2,
    Tdt.step Z.leb Stub.isnan (Stub.session 7 2 3) tt 3 10 (Tdt.init_state 0) s1 /\
    Tdt.tokens s1 = [7] /\ Tdt.t s1 = 2 /\
    Tdt.step Z.leb Stub.isnan (Stub.session 7 2 3) tt 3 10 s1 s2 /\
    Tdt.tokens s2 = [7; 7] /\ Tdt.t s2 = 4 /\
    Stub.decode 7 2 3 3 = Tdt.Finished s2 /\
    Tdt.truncated 3 10 s2 = false.
Proof.
  exact (scenario_B_output Z.leb Stub.isnan (Stub.session 7 2 3) tt 0
           stub_scenario_B_ranks).
Defined.

Lemma stub_scenario_B_well_shaped :
  TdtPass.well_shaped (Stub.session 7 2 3) tt 3.
Proof.
  intros label h c. eexists _, _, _. split; [reflexivity|].
  intros k Hk. exists (Stub.logits 7 2).
  assert (Hlen : Py.len (Stub.logits 7 2) = 1030) by (vm_compute; reflexivity).
  rewrite Hlen. split.
  - assert (k = 0 \/ k = 1 \/ k = 2) as [->|[->| ->]] by lia; reflexivity.
  - unfold Tdt.blank_id. cbn. lia.
Defined.

Lemma cap_never_reached_witness :
  Stub.decode 7 2 3 3 = Tdt.Finished (Tdt.mkState [7; 7] 4 7 2 2 2) /\
  exists s, Stub.decode 7 2 3 3 = Tdt.Finished s /\ 3 <= Tdt.t s /\
            Tdt.iters s <= 3 /\ Tdt.truncated 3 10 s = false.
Proof.
  split; [vm_compute; reflexivity|].
  refine (proj1 (proj2 (proj2 (proj2 (proj2 (proj2 (proj2
            (cap_never_reached Z.leb Stub.isnan (Stub.session 7 2 3) tt 3 0 10
               _ _)))))))
            stub_scenario_B_well_shaped); lia.
Defined.

(** C10, as stated, fails for a model behaviour that makes a pass raise.  A
    session whose joint tensor has one frame, decoded with [enc_T = 2],
    decides blank on frame 0 and raises IndexError on frame 1: the loop
    ends with [t = 1 < enc_T], after 2 of the 20 allowed iterations.  A
    session whose call raises ends the loop in the first pass, at
    [t = 0]. *)
Lemma short_joint_raises_before_end :
  Stub.decode 1024 0 1 2
    = Tdt.Raised IndexError (Tdt.mkState [] 1 1024 2 2 2) /\
  Tdt.t (Tdt.mkState [] 1 1024 2 2 2 : @Tdt.DecodeState Z) < 2 /\
  ~ (exists s, Stub.decode 1024 0 1 2 = Tdt.Finished s /\ 2 <= Tdt.t s) /\
  Tdt.decode Z.leb Stub.isnan Sample.failing_session tt 2 0 10
    = Tdt.Raised SessionError (Tdt.mkState [] 0 1024 1 0 0).
Proof.
  assert (Hd : Stub.decode 1024 0 1 2
               = Tdt.Raised IndexError (Tdt.mkState [] 1 1024 2 2 2))
    by (vm_compute; reflexivity).
  split; [exact Hd|]. split; [cbn; lia|]. split; [|vm_compute; reflexivity].
  intros (s & Hs & _). rewrite Hd in Hs. discriminate.
Qed.

Lemma text_assembly_witness :
  Transcript.text Transcript.scenario_D_vocab [0; 3; 1]
  = Some (Transcript.str "hibar there").
Proof.
  rewrite (proj1 TranscriptFacts.text_assembly Transcript.scenario_D_vocab
             [0; 3; 1]).
  - vm_compute. reflexivity.
  - repeat constructor; vm_compute; congruence.
Defined.

(** C8, as stated, fails on its example: the piece [foo] carries no marker,
    so no space separates it from [hi]. *)
Lemma scenario_D_text_has_no_inner_space :
  Transcript.text Transcript.scenario_D_vocab [0; 2; 1]
  <> Some (Transcript.str "hi foo there").
Proof. vm_compute. discriminate. Qed.

Lemma transcript_drops_invalid_ids_witness :
  Transcript.text Transcript.scenario_D_vocab [7; 7]
    = Some (Transcript.assemble [7; 7] Transcript.scenario_D_vocab) /\
  Transcript.assemble [7; 7] Transcript.scenario_D_vocab = [] /\
  Transcript.text Transcript.scenario_D_vocab (map Z.of_nat [0; 7; 1]%nat)
    = Some (Transcript.str "hi there").
Proof.
  pose proof (transcript_drops_invalid_ids Z.leb Stub.isnan
                (Stub.session 7 2 3) tt 3 0 10 Transcript.scenario_D_vocab)
    as (_ & Hids & Hrun).
  split; [|split].
  - apply (Hrun (Tdt.mkState [7; 7] 4 7 2 2 2)). vm_compute. reflexivity.
  - vm_compute. reflexivity.
  - rewrite (proj1 (Hids [0; 7; 1]%nat)). vm_compute. reflexivity.
Defined.

(** * Further properties of the scripts *)

(** ** More on one pass of the decode loop *)

Section BodyMore.
Context {score tensor hidden : Type}.
Variable score_le : score -> score -> bool.
Variable score_isnan : score -> bool.
Variable dec_sess_run :
  hidden -> Z -> tensor -> tensor -> option (list (list score) * tensor * tensor).
Variable enc_hidden : hidden.

Local Abbreviation state := (@Tdt.DecodeState tensor).
Local Abbreviation loop_body :=
  (Tdt.loop_body score_le score_isnan dec_sess_run enc_hidden).
Local Abbreviation best_label :=
  (Tdt.best_label score_le score_isnan dec_sess_run enc_hidden).

(** The variables a raising pass leaves behind: either nothing but the
    counter and the LSTM state has changed, or the token was already
    appended and [last_label] set when the duration lookup raised. *)
Lemma loop_body_raise_state (s s' : state) (e : exn) :
  loop_body s = Tdt.Raise e s' ->
  Tdt.iters s' = Tdt.iters s + 1 /\ Tdt.t s' = Tdt.t s /\
  ((Tdt.tokens s' = Tdt.tokens s /\ Tdt.last_label s' = Tdt.last_label s) \/
   (exists best, 0 <= best < Tdt.blank_id /\
                 Tdt.tokens s' = Tdt.tokens s ++ [best] /\
                 Tdt.last_label s' = best)).
Proof.
  unfold Tdt.loop_body.
  destruct (dec_sess_run _ _ _ _) as [[[joint h'] c']|];
    [|intros [= <- <-]; cbn; auto].
  destruct (Py.getitem joint _) as [logits|]; [|intros [= <- <-]; cbn; auto].
  destruct (np_argmax _ _ (Py.slice_to _ _)) as [b|] eqn:Hb;
    [|intros [= <- <-]; cbn; auto].
  pose proof (best_in_segment _ _ _ _ Hb) as Hr.
  destruct (Z.eqb_spec (Z.of_nat b) Tdt.blank_id) as [Heq|Hne]; [discriminate|].
  assert (0 <= Z.of_nat b < Tdt.blank_id) by lia.
  destruct (np_argmax _ _ (Py.slice_from _ _)) as [di|];
    [|intros [= <- <-]; cbn; repeat split; eauto].
  destruct (Py.getitem Tdt.tdt_durations _) as [d|];
    [discriminate|intros [= <- <-]; cbn; repeat split; eauto].
Qed.

(** The pass taken when the session answers and blank wins. *)
Lemma loop_body_blank (s : state) joint h' c' logits :
  dec_sess_run enc_hidden (Tdt.last_label s) (Tdt.lstm_h s) (Tdt.lstm_c s)
    = Some (joint, h', c') ->
  Py.getitem joint (Tdt.t s) = Some logits ->
  np_argmax score_le score_isnan (Py.slice_to logits (Tdt.blank_id + 1))
    = Some (Z.to_nat Tdt.blank_id) ->
  loop_body s =
    Tdt.Next (Tdt.mkState (Tdt.tokens s) (Tdt.t s + 1) (Tdt.last_label s)
                          (Tdt.iters s + 1) h' c').
Proof.
  intros Hrun Hj Hb. unfold Tdt.loop_body. rewrite Hrun, Hj, Hb. reflexivity.
Qed.

Lemma slice_from_short {A} (l : list A) (k : Z) :
  0 <= k -> Py.len l <= k -> Py.slice_from l k = [].
Proof.
  intros Hk Hl. unfold Py.slice_from, Py.len in *.
  destruct (Z.ltb_spec k 0); [lia|]. apply skipn_all2. lia.
Qed.

(** X6. When the logit vector of the current frame has no duration segment
    (at most [blank_id + 1] entries), a pass can only complete by deciding
    blank; otherwise it raises ValueError, from the empty vocabulary segment
    or from [np.argmax] of the empty duration segment after the token has
    been appended. *)
Theorem no_duration_segment_blank_or_error (s : state) joint h' c' logits :
  dec_sess_run enc_hidden (Tdt.last_label s) (Tdt.lstm_h s) (Tdt.lstm_c s)
    = Some (joint, h', c') ->
  Py.getitem joint (Tdt.t s) = Some logits ->
  Py.len logits <= Tdt.blank_id + 1 ->
  (best_label s = Some Tdt.blank_id /\
   loop_body s = Tdt.Next (Tdt.mkState (Tdt.tokens s) (Tdt.t s + 1)
                             (Tdt.last_label s) (Tdt.iters s + 1) h' c'))
  \/
  (best_label s <> Some Tdt.blank_id /\
   exists s', loop_body s = Tdt.Raise ValueError s' /\
              (Tdt.tokens s' = Tdt.tokens s \/
               exists best, best_label s = Some best /\
                            Tdt.tokens s' = Tdt.tokens s ++ [best])).
Proof.
  intros Hrun Hj Hlen. unfold Tdt.loop_body, Tdt.best_label.
  rewrite Hrun, Hj.
  destruct (np_argmax _ _ (Py.slice_to _ _)) as [b|] eqn:Hb; cbn [option_map].
  - destruct (Z.eqb_spec (Z.of_nat b) Tdt.blank_id) as [Heq|Hne].
    + left. rewrite Heq. auto.
    + right. split; [congruence|].
      rewrite slice_from_short by (unfold Tdt.blank_id in *; lia).
      cbn [np_argmax]. eexists. split; [reflexivity|]. cbn. eauto.
  - right. split; [discriminate|]. eexists. split; [reflexivity|]. cbn. auto.
Qed.

End BodyMore.

(** ** More on runs of the decode loop *)

Section DecodeMore.
Context {score tensor hidden : Type}.
Variable score_le : score -> score -> bool.
Variable score_isnan : score -> bool.
Variable dec_sess_run :
  hidden -> Z -> tensor -> tensor -> option (list (list score) * tensor * tensor).
Variable enc_hidden : hidden.
Variable enc_T : Z.
Variable zeros : tensor.
Variable max_step_multiplier : Z.

Local Abbreviation state := (@Tdt.DecodeState tensor).
Local Abbreviation loop_body :=
  (Tdt.loop_body score_le score_isnan dec_sess_run enc_hidden).
Local Abbreviation loop_cond := (Tdt.loop_cond enc_T max_step_multiplier).
Local Abbreviation init_state := (Tdt.init_state zeros).
Local Abbreviation run :=
  (Tdt.run score_le score_isnan dec_sess_run enc_hidden enc_T
           max_step_multiplier).
Local Abbreviation reachable :=
  (Tdt.reachable score_le score_isnan dec_sess_run enc_hidden enc_T zeros
                 max_step_multiplier).
Local Abbreviation decode :=
  (Tdt.decode score_le score_isnan dec_sess_run enc_hidden enc_T zeros
              max_step_multiplier).

Lemma guard_true (s : state) :
  loop_cond s = true <->
  Tdt.t s < enc_T /\ Tdt.iters s < enc_T * max_step_multiplier.
Proof.
  unfold Tdt.loop_cond. rewrite andb_true_iff, !Z.ltb_lt. reflexivity.
Qed.

Lemma guard_false (s : state) :
  loop_cond s = false <->
  enc_T <= Tdt.t s \/ enc_T * max_step_multiplier <= Tdt.iters s.
Proof.
  unfold Tdt.loop_cond. rewrite andb_false_iff, !Z.ltb_ge. reflexivity.
Qed.

(** A property kept by every pass, completed or raising, holds at the top of
    every pass and in the state the decode ends with. *)
Lemma decode_invariant (P : state -> Prop) :
  P init_state ->
  (forall s s', loop_cond s = true -> loop_body s = Tdt.Next s' -> P s -> P s') ->
  (forall s e s', loop_cond s = true -> loop_body s = Tdt.Raise e s' ->
                  P s -> P s') ->
  forall s, reachable s \/ Tdt.outcome_state decode = Some s -> P s.
Proof.
  intros Hinit Hnext Hraise.
  assert (Hreach : forall s, reachable s -> P s).
  { induction 1 as [|s s' Hs IH [Hc Hb]]; eauto. }
  intros s [Hs|Ho]; [auto|].
  unfold Tdt.decode in Ho.
  destruct (run _ _) as [s1|e s1|] eqn:Hr; cbn in Ho; inversion Ho; subst.
  - apply Hreach.
    eapply run_finished_reachable; [apply Tdt.reach_init|exact Hr].
  - eapply run_raised_reachable in Hr; [|apply Tdt.reach_init].
    destruct Hr as (s0 & Hs0 & Hc & Hb). eauto.
Qed.

(** X1. An utterance without frames ([enc_T <= 0]) is decoded without a
    single pass, whatever the decoder session: the loop stops in its initial
    state for every amount of fuel, and no other state is reached. *)
Theorem empty_utterance_no_pass :
  enc_T <= 0 ->
  decode = Tdt.Finished init_state /\
  (forall fuel, run fuel init_state = Tdt.Finished init_state) /\
  (forall s, reachable s -> s = init_state).
Proof.
  intros HT.
  assert (Hc : loop_cond init_state = false).
  { apply guard_false. left. cbn. lia. }
  split; [|split].
  - unfold Tdt.decode. now apply run_finished.
  - intros fuel. now apply run_finished.
  - induction 1 as [|s s' Hs IH [Hc' _]]; [reflexivity|].
    subst s. congruence.
Qed.

Lemma last_snoc {A} (l : list A) (x d : A) : last (l ++ [x]) d = x.
Proof. apply last_last. Qed.

(** X2. The label fed to the prediction network is always the most recently
    emitted token, and [blank_id] as long as nothing has been emitted: at the
    top of every pass and in the state the decode ends with,
    [last_label = tokens[-1]] (or [blank_id] for an empty [tokens]). *)
Theorem last_label_is_last_token (s : state) :
  reachable s \/ Tdt.outcome_state decode = Some s ->
  Tdt.last_label s = last (Tdt.tokens s) Tdt.blank_id.
Proof.
  apply (decode_invariant
           (fun s => Tdt.last_label s = last (Tdt.tokens s) Tdt.blank_id)).
  - reflexivity.
  - intros s0 s' _ Hb IH. apply loop_body_next in Hb.
    destruct Hb as (_ & _ & [(_ & _ & -> & ->)|(best & d & _ & _ & _ & _ & -> & ->)]).
    + exact IH.
    + now rewrite last_snoc.
  - intros s0 e s' _ Hb IH. apply loop_body_raise_state in Hb.
    destruct Hb as (_ & _ & [(-> & ->)|(best & _ & -> & ->)]).
    + exact IH.
    + now rewrite last_snoc.
Qed.

(** X3. Accounting of a decode: at the top of every pass
    [len(tokens) <= iters <= t <= iters + 3 * len(tokens)] (a pass emits at
    most one token and consumes one frame, an emit up to three more); hence
    a decode of [enc_T >= 0] frames ends, normally or by an exception, with
    at most [enc_T] tokens. *)
Theorem decode_accounting :
  (forall s, reachable s ->
     Py.len (Tdt.tokens s) <= Tdt.iters s <= Tdt.t s /\
     Tdt.t s <= Tdt.iters s + 3 * Py.len (Tdt.tokens s)) /\
  (0 <= enc_T ->
   forall s, Tdt.outcome_state decode = Some s ->
     Py.len (Tdt.tokens s) <= Tdt.iters s <= enc_T).
Proof.
  split.
  - induction 1 as [|s s' Hs IH [Hc Hb]]; [cbn; lia|].
    apply loop_body_next in Hb.
    destruct Hb as (Hi & _ & [(_ & Ht & Htok & _)|(best & d & _ & _ & Hd & Ht & Htok & _)]);
      rewrite Htok, ?len_snoc; lia.
  - intros HT s Ho.
    assert (Hlen : Py.len (Tdt.tokens s) <= Tdt.iters s).
    { revert s Ho.
      assert (H := decode_invariant
                     (fun s => Py.len (Tdt.tokens s) <= Tdt.iters s)).
      intros s Ho. apply H; [cbn; lia| | |now right].
      - intros s0 s' _ Hb IH. apply loop_body_next in Hb.
        destruct Hb as (Hi & _ & [(_ & _ & Htok & _)|(best & d & _ & _ & _ & _ & Htok & _)]);
          rewrite Htok, ?len_snoc; lia.
      - intros s0 e s' _ Hb IH. apply loop_body_raise_state in Hb.
        destruct Hb as (Hi & _ & [(Htok & _)|(best & _ & Htok & _)]);
          rewrite Htok, ?len_snoc; lia. }
    split; [exact Hlen|].
    unfold Tdt.decode in Ho.
    destruct (run _ _) as [s1|e s1|] eqn:Hr; cbn in Ho; inversion Ho; subst.
    + eapply run_finished_reachable in Hr; [|apply Tdt.reach_init].
      destruct Hr as [Hr _]. apply reachable_bounds in Hr. lia.
    + eapply run_raised_reachable in Hr; [|apply Tdt.reach_init].
      destruct Hr as (s0 & Hs0 & Hc & Hb).
      apply reachable_bounds in Hs0. apply guard_true in Hc.
      apply loop_body_raise in Hb. lia.
Qed.

(** With a session that ranks blank highest on every frame, each pass moves
    one frame and emits nothing. *)
Lemma all_blank_run :
  (forall label h c, exists joint h' c',
      dec_sess_run enc_hidden label h c = Some (joint, h', c') /\
      forall k, 0 <= k < enc_T ->
        exists logits,
          Py.getitem joint k = Some logits /\
          np_argmax score_le score_isnan
            (Py.slice_to logits (Tdt.blank_id + 1))
          = Some (Z.to_nat Tdt.blank_id)) ->
  enc_T <= enc_T * max_step_multiplier ->
  forall (fuel : nat) (s : state),
    0 <= Tdt.t s <= enc_T -> Tdt.iters s = Tdt.t s ->
    (Z.to_nat (enc_T - Tdt.t s) <= fuel)%nat ->
    exists s', run fuel s = Tdt.Finished s' /\
               Tdt.t s' = enc_T /\ Tdt.iters s' = enc_T /\
               Tdt.tokens s' = Tdt.tokens s /\
               Tdt.last_label s' = Tdt.last_label s.
Proof.
  intros Hj Hcap. induction fuel as [|fuel IH]; intros s Ht Hi Hf.
  - exists s. rewrite run_finished; [|apply guard_false; lia].
    repeat split; lia.
  - destruct (Z.eq_dec (Tdt.t s) enc_T) as [He|Hlt].
    + exists s. rewrite run_finished; [|apply guard_false; lia].
      repeat split; lia.
    + destruct (Hj (Tdt.last_label s) (Tdt.lstm_h s) (Tdt.lstm_c s))
        as (joint & h' & c' & Hrun & Hframes).
      destruct (Hframes (Tdt.t s)) as (logits & Hg & Hb); [lia|].
      pose proof (loop_body_blank _ _ _ _ s _ _ _ _ Hrun Hg Hb) as Hbody.
      erewrite run_next; [|apply guard_true; lia|exact Hbody].
      match goal with
      | |- context [run fuel ?s1] =>
          destruct (IH s1) as (s' & Hr & H1 & H2 & H3 & H4)
      end; cbn [Tdt.t Tdt.iters Tdt.tokens Tdt.last_label] in *; try lia.
      exists s'. repeat split; assumption.
Qed.

(** X4. Silence: if the session ranks blank highest on every frame below
    [enc_T], the decode of [enc_T >= 0] frames stops normally after exactly
    [enc_T] passes with [t = enc_T], no token and [last_label] still
    [blank_id]. *)
Theorem all_blank_empty_output :
  0 <= enc_T -> 1 <= max_step_multiplier ->
  (forall label h c, exists joint h' c',
      dec_sess_run enc_hidden label h c = Some (joint, h', c') /\
      forall k, 0 <= k < enc_T ->
        exists logits,
          Py.getitem joint k = Some logits /\
          np_argmax score_le score_isnan
            (Py.slice_to logits (Tdt.blank_id + 1))
          = Some (Z.to_nat Tdt.blank_id)) ->
  exists s, decode = Tdt.Finished s /\
            Tdt.tokens s = [] /\ Tdt.t s = enc_T /\ Tdt.iters s = enc_T /\
            Tdt.last_label s = Tdt.blank_id.
Proof.
  intros HT Hm Hj.
  assert (Hcap : enc_T <= enc_T * max_step_multiplier)
    by nia.
  destruct (all_blank_run Hj Hcap (Z.to_nat enc_T) init_state)
    as (s & Hr & Ht & Hi & Htok & Hl); cbn; try lia.
  exists s. repeat split; assumption.
Qed.

(** X7. Decode and transcript together: with a vocabulary of at least
    [blank_id] pieces the filter of line 85 drops nothing, so the transcript
    of a decode is the trimmed, marker-free concatenation of the pieces of
    all emitted ids, in emission order. *)
Theorem decode_text_keeps_all_tokens (vocab : list Transcript.pystr) s :
  Tdt.blank_id <= Py.len vocab ->
  Tdt.outcome_state decode = Some s ->
  Transcript.text vocab (Tdt.tokens s)
  = Some (Transcript.strip (Transcript.replace_marker
            (List.concat (map (fun id => nth (Z.to_nat id) vocab [])
                              (Tdt.tokens s))))).
Proof.
  intros Hv Ho. apply decode_state_tokens in Ho.
  unfold Transcript.text.
  rewrite TranscriptFacts.pieces_nonneg
    by (eapply Forall_impl; [|exact Ho]; cbn; intros; lia).
  rewrite TranscriptFacts.filter_in_vocabulary_id; [reflexivity|].
  eapply Forall_impl; [|exact Ho]. cbn. intros; lia.
Qed.

End DecodeMore.

(** ** The blank decision under a total order of scores *)

Section BlankDecision.
Context {score tensor hidden : Type}.
Variable score_le : score -> score -> bool.
Variable score_isnan : score -> bool.
Variable dec_sess_run :
  hidden -> Z -> tensor -> tensor -> option (list (list score) * tensor * tensor).
Variable enc_hidden : hidden.

(** Scores without NaN, totally preordered by [score_le]. *)
Hypothesis no_nan : forall x, score_isnan x = false.
Hypothesis le_total : forall x y, score_le x y = true \/ score_le y x = true.
Hypothesis le_trans :
  forall x y z, score_le x y = true -> score_le y z = true -> score_le x z = true.

Local Abbreviation state := (@Tdt.DecodeState tensor).
Local Abbreviation best_label :=
  (Tdt.best_label score_le score_isnan dec_sess_run enc_hidden).

Lemma nth_error_snoc (pre : list score) (x y : score) (j : nat) :
  nth_error (pre ++ [x]) j = Some y ->
  nth_error pre j = Some y \/ (j = List.length pre /\ y = x).
Proof.
  intros H. destruct (Nat.lt_ge_cases j (List.length pre)) as [Hlt|Hge].
  - rewrite nth_error_app1 in H by assumption. now left.
  - rewrite nth_error_app2 in H by assumption. right.
    destruct (j - List.length pre)%nat as [|k] eqn:E; cbn in H.
    + split; [lia|congruence].
    + destruct k; discriminate.
Qed.

(** The scan keeps the first maximum of what it has seen. *)
Lemma argmax_scan_first_max (r : list score) :
  forall (pre : list score) (mp : score) (best : nat),
    nth_error pre best = Some mp ->
    (forall j x, nth_error pre j = Some x -> score_le x mp = true) ->
    (forall j x, (j < best)%nat -> nth_error pre j = Some x ->
                 score_le mp x = false) ->
    exists m,
      nth_error (pre ++ r)
        (argmax_scan score_le score_isnan mp best (List.length pre) r) = Some m /\
      (forall j x, nth_error (pre ++ r) j = Some x -> score_le x m = true) /\
      (forall j x,
          (j < argmax_scan score_le score_isnan mp best (List.length pre) r)%nat ->
          nth_error (pre ++ r) j = Some x -> score_le m x = false).
Proof.
  induction r as [|x r IH]; intros pre mp best Hbest Hmax Hfirst.
  - cbn [argmax_scan]. rewrite app_nil_r. eauto.
  - cbn [argmax_scan]. rewrite no_nan.
    assert (Hb : (best < List.length pre)%nat)
      by (apply nth_error_Some; congruence).
    replace (pre ++ x :: r) with ((pre ++ [x]) ++ r)
      by (rewrite <- app_assoc; reflexivity).
    replace (S (List.length pre)) with (List.length (pre ++ [x]))
      by (rewrite length_app; cbn; lia).
    destruct (score_le x mp) eqn:Hx; cbn [negb].
    + apply IH.
      * rewrite nth_error_app1 by assumption. exact Hbest.
      * intros j y Hj. apply nth_error_snoc in Hj.
        destruct Hj as [Hj|[_ ->]]; eauto.
      * intros j y Hlt Hj. apply nth_error_snoc in Hj.
        destruct Hj as [Hj|[-> _]]; [eauto|lia].
    + assert (Hmx : score_le mp x = true)
        by (destruct (le_total mp x); congruence).
      apply IH.
      * rewrite nth_error_app2 by lia. rewrite Nat.sub_diag. reflexivity.
      * intros j y Hj. apply nth_error_snoc in Hj.
        destruct Hj as [Hj|[_ ->]].
        -- eapply le_trans; [eapply Hmax; eassumption|exact Hmx].
        -- destruct (le_total x x); assumption.
      * intros j y Hlt Hj. apply nth_error_snoc in Hj.
        destruct Hj as [Hj|[-> _]]; [|lia].
        destruct (score_le x y) eqn:Hxy; [|reflexivity].
        rewrite (le_trans x y mp Hxy (Hmax _ _ Hj)) in Hx. discriminate.
Qed.

(** [np.argmax] returns the index of the first maximal entry. *)
Lemma np_argmax_first_max (l : list score) (b : nat) :
  np_argmax score_le score_isnan l = Some b ->
  exists m,
    nth_error l b = Some m /\
    (forall j x, nth_error l j = Some x -> score_le x m = true) /\
    (forall j x, (j < b)%nat -> nth_error l j = Some x -> score_le m x = false).
Proof.
  destruct l as [|x r]; cbn [np_argmax]; [discriminate|].
  intros [= <-].
  apply (argmax_scan_first_max r [x] x 0%nat).
  - reflexivity.
  - intros [|[|j]] y; cbn; intros [= <-].
    destruct (le_total x x); assumption.
  - intros; lia.
Qed.

Lemma getitem_segment (logits : list score) (v : Z) (x : score) :
  0 <= v <= Tdt.blank_id ->
  Py.getitem logits v = Some x ->
  nth_error (Py.slice_to logits (Tdt.blank_id + 1)) (Z.to_nat v) = Some x.
Proof.
  intros Hv. unfold Py.getitem, Py.slice_to.
  destruct (Z.ltb_spec v 0); [lia|].
  destruct (Z.ltb_spec (Tdt.blank_id + 1) 0); [unfold Tdt.blank_id in *; lia|].
  intros Hget. rewrite nth_error_firstn.
  destruct (Nat.ltb_spec (Z.to_nat v) (Z.to_nat (Tdt.blank_id + 1)));
    [exact Hget|lia].
Qed.

(** X5. Blank wins only by a strictly higher score.  For NaN-free, totally
    ordered scores: when a pass decides blank, the blank score strictly
    exceeds the score of every vocabulary id of the frame; when it emits id
    [v], the blank score does not exceed the score of [v].  A tie between
    blank and the best vocabulary id therefore emits the token. *)
Theorem blank_wins_strictly (s : state) joint h' c' logits (v : Z) (xv xb : score) :
  dec_sess_run enc_hidden (Tdt.last_label s) (Tdt.lstm_h s) (Tdt.lstm_c s)
    = Some (joint, h', c') ->
  Py.getitem joint (Tdt.t s) = Some logits ->
  0 <= v < Tdt.blank_id ->
  Py.getitem logits v = Some xv ->
  Py.getitem logits Tdt.blank_id = Some xb ->
  (best_label s = Some Tdt.blank_id -> score_le xb xv = false) /\
  (best_label s = Some v -> score_le xb xv = true).
Proof.
  intros Hrun Hj Hv Hxv Hxb. unfold Tdt.best_label. rewrite Hrun, Hj.
  apply getitem_segment in Hxv; [|lia].
  apply getitem_segment in Hxb; [|unfold Tdt.blank_id; lia].
  destruct (np_argmax _ _ _) as [b|] eqn:Hb; cbn [option_map];
    [|split; discriminate].
  apply np_argmax_first_max in Hb. destruct Hb as (m & Hm & Hmax & Hfirst).
  split; intros [= Heq].
  - assert (b = Z.to_nat Tdt.blank_id) by lia. subst b.
    rewrite Hxb in Hm. injection Hm as <-.
    apply (Hfirst (Z.to_nat v)); [lia|exact Hxv].
  - assert (b = Z.to_nat v) by lia. subst b.
    rewrite Hxv in Hm. injection Hm as <-.
    eapply Hmax. exact Hxb.
Qed.

End BlankDecision.

(** ** Frame counts *)

Module FramesFacts.
Import Frames.

(** X8. [padded_T] is the least multiple of 8 that is at least [T], for every
    integer [T]: the width handed to [np.pad] lies in [[0, 7]], and the guard
    [padded_T != T] of line 43 holds exactly when [T] is not a multiple
    of 8. *)
Theorem padded_T_least_multiple (T : Z) :
  padded_T T mod 8 = 0 /\
  0 <= pad_width T <= 7 /\
  (padded_T T = T <-> T mod 8 = 0) /\
  (forall m, m mod 8 = 0 -> T <= m -> padded_T T <= m).
Proof.
  unfold pad_width, padded_T.
  split; [apply Z.mod_mul; lia|].
  split; [|split; [split|]]; intros;
    Z.to_euclidean_division_equations; lia.
Qed.

(** X9. The mel frame count computed for a WAV file of [n_frames] samples is
    at least 1 (audio shorter than one window still gives one frame); for
    audio of at least one window it is the number of whole windows of 400
    samples placed every 160 samples; and the padded count handed to the
    encoder is a positive multiple of 8. *)
Theorem mel_frame_count (n_frames : Z) :
  1 <= num_frames n_frames /\
  (n_frames < win_length + hop_length -> num_frames n_frames = 1) /\
  (win_length <= n_frames ->
     (num_frames n_frames - 1) * hop_length + win_length <= n_frames
       < num_frames n_frames * hop_length + win_length) /\
  8 <= padded_frames n_frames /\
  padded_frames n_frames mod 8 = 0 /\
  num_frames n_frames <= padded_frames n_frames.
Proof.
  assert (H1 : 1 <= num_frames n_frames) by (unfold num_frames; lia).
  split; [exact H1|].
  split; [|split; [|split; [|split]]].
  - unfold num_frames, win_length, hop_length. intros.
    Z.to_euclidean_division_equations; lia.
  - unfold num_frames, win_length, hop_length. intros.
    Z.to_euclidean_division_equations; lia.
  - unfold padded_frames, padded_T. revert H1.
    generalize (num_frames n_frames). intros f Hf.
    Z.to_euclidean_division_equations; lia.
  - unfold padded_frames, padded_T. apply Z.mod_mul. lia.
  - unfold padded_frames, padded_T. generalize (num_frames n_frames).
    intros f. Z.to_euclidean_division_equations; lia.
Qed.

End FramesFacts.

(** ** The vocabulary file *)

Module VocabFileFacts.
Import Transcript VocabFile.
Local Open Scope N_scope.

Lemma written_cons (piece : pystr) (pieces : list pystr) :
  written (piece :: pieces) = piece ++ LF :: written pieces.
Proof. unfold written. cbn. rewrite <- app_assoc. reflexivity. Qed.

(** Writing and reading back in text mode is the identity on text without
    CR, on either kind of platform. *)
Lemma read_write_text (linesep s : pystr) :
  linesep = [LF] \/ linesep = [CR; LF] ->
  Forall (fun c => c <> CR) s ->
  read_text (write_text linesep s) = s.
Proof.
  intros Hsep. induction 1 as [|c r Hc _ IH]; [reflexivity|].
  cbn [write_text flat_map]. fold (write_text linesep r).
  destruct (N.eqb_spec c LF) as [->|Hlf].
  - destruct Hsep as [->| ->]; cbn; now rewrite IH.
  - cbn. destruct (N.eqb_spec c CR); [contradiction|]. now rewrite IH.
Qed.

Lemma written_no_CR (pieces : list pystr) :
  Forall one_line pieces -> Forall (fun c => c <> CR) (written pieces).
Proof.
  induction 1 as [|p ps Hp _ IH]; [constructor|].
  rewrite written_cons. apply Forall_app. split.
  - eapply Forall_impl; [|exact Hp]. cbn. intros c Hc ->. discriminate.
  - constructor; [discriminate|exact IH].
Qed.

(** [splitlines] closes a line without boundary at the LF that follows. *)
Lemma splitlines_line (piece : pystr) :
  one_line piece ->
  forall cur rest,
    splitlines_from cur (piece ++ LF :: rest)
    = (cur ++ piece) :: splitlines_from [] rest.
Proof.
  induction 1 as [|c p Hc _ IH]; intros cur rest.
  - cbn. now rewrite app_nil_r.
  - cbn [app splitlines_from]. rewrite Hc, IH, <- app_assoc. reflexivity.
Qed.

Lemma splitlines_written (pieces : list pystr) :
  Forall one_line pieces -> splitlines (written pieces) = pieces.
Proof.
  unfold splitlines. induction 1 as [|p ps Hp _ IH]; [reflexivity|].
  rewrite written_cons, splitlines_line by assumption. cbn. now rewrite IH.
Qed.

(** X10. The vocabulary file round-trips: if no piece contains a line
    boundary, the list that [test_tdt_decode.py] reads back from the file
    written by [extract_vocab.py] is the list of pieces itself, with LF or
    CR LF as the platform's line separator; so the vocabulary has one entry
    per piece and entry [i] is piece [i]. *)
Theorem vocab_file_round_trip (linesep : pystr) (pieces : list pystr) :
  linesep = [LF] \/ linesep = [CR; LF] ->
  Forall one_line pieces ->
  vocab linesep pieces = pieces /\
  Py.len (vocab linesep pieces) = Py.len pieces /\
  (forall i, Py.getitem (vocab linesep pieces) i = Py.getitem pieces i).
Proof.
  intros Hsep Hp.
  assert (Hv : vocab linesep pieces = pieces).
  { unfold vocab. rewrite read_write_text; auto using written_no_CR.
    now apply splitlines_written. }
  rewrite Hv. auto.
Qed.

End VocabFileFacts.

(** ** String tests *)

Module PyStrFacts.
Import Transcript.

Lemma eqb_eq (a b : pystr) : PyStr.eqb a b = true <-> a = b.
Proof.
  revert b. induction a as [|x a IH]; intros [|y b]; cbn; split;
    try congruence; try discriminate; auto.
  - intros H. apply andb_true_iff in H. destruct H as [Hx Hab].
    apply N.eqb_eq in Hx. apply IH in Hab. congruence.
  - intros [= -> ->]. rewrite N.eqb_refl. cbn. now apply IH.
Qed.

Lemma eqb_neq (a b : pystr) : PyStr.eqb a b = false <-> a <> b.
Proof.
  rewrite <- eqb_eq. destruct (PyStr.eqb a b); split; congruence.
Qed.

Lemma eqb_refl (a : pystr) : PyStr.eqb a a = true.
Proof. now apply eqb_eq. Qed.

Lemma startswith_spec (needle hay : pystr) :
  PyStr.startswith needle hay = true <-> exists post, hay = needle ++ post.
Proof.
  revert hay. induction needle as [|x n IH]; intros hay; cbn.
  - split; eauto.
  - destruct hay as [|y h].
    + split; [discriminate|]. intros (post & H). discriminate.
    + rewrite andb_true_iff, N.eqb_eq, IH. split.
      * intros (-> & post & ->). eauto.
      * intros (post & [= -> ->]). eauto.
Qed.

(** [needle in hay] holds exactly when [needle] occurs in [hay]. *)
Lemma contains_spec (needle hay : pystr) :
  PyStr.contains needle hay = true <->
  exists pre post, hay = pre ++ needle ++ post.
Proof.
  induction hay as [|y h IH].
  - cbn. rewrite orb_false_r, startswith_spec. split.
    + intros (post & H). exists [], post. exact H.
    + intros (pre & post & H). symmetry in H.
      apply app_eq_nil in H. destruct H as [-> H].
      apply app_eq_nil in H. destruct H as [-> ->]. exists []. reflexivity.
  - cbn [PyStr.contains]. rewrite orb_true_iff, startswith_spec, IH. split.
    + intros [(post & H)|(pre & post & ->)].
      * exists [], post. exact H.
      * exists (y :: pre), post. reflexivity.
    + intros (pre & post & H). destruct pre as [|z pre].
      * left. exists post. exact H.
      * right. injection H as -> ->. eauto.
Qed.

End PyStrFacts.

(** ** [find_tokenizer_model] *)

Module ExtractVocabFacts.
Import Transcript ExtractVocab.

Section FindFacts.
Context {path : Type}.
Variable name : path -> pystr.
Variable lower : pystr -> pystr.

Local Abbreviation is_candidate :=
  (fun p : path => PyStr.contains (str "tokenizer") (lower (name p))).
Local Abbreviation exact_name :=
  (fun p : path => PyStr.eqb (name p) (str "tokenizer.model")).

Lemma find_split (f : path -> bool) (l : list path) (p : path) :
  find f l = Some p ->
  exists pre post, l = pre ++ p :: post /\ f p = true /\
                   forall q, In q pre -> f q = false.
Proof.
  induction l as [|x l IH]; cbn; [discriminate|].
  destruct (f x) eqn:Hx.
  - intros [= ->]. exists [], l. repeat split; auto. intros q [].
  - intros H. destruct (IH H) as (pre & post & -> & Hp & Hpre).
    exists (x :: pre), post. repeat split; auto.
    intros q [->|Hq]; auto.
Qed.

(** X11. [find_tokenizer_model] returns [None] exactly when no listed path
    has "tokenizer" in its lower-cased name; a path it returns is one of the
    listed paths and has "tokenizer" in its lower-cased name. *)
Theorem find_tokenizer_model_none_iff (listing : list path) :
  (find_tokenizer_model name lower listing = None <->
   forall p, In p listing -> is_candidate p = false) /\
  (forall p, find_tokenizer_model name lower listing = Some p ->
             In p listing /\ is_candidate p = true).
Proof.
  unfold find_tokenizer_model, candidates.
  destruct (filter is_candidate listing) as [|c cs] eqn:Hf.
  - split; [|discriminate]. split; [|reflexivity].
    intros _ p Hp. destruct (is_candidate p) eqn:Hc; [|reflexivity].
    assert (Hin : In p (filter is_candidate listing))
      by (apply (proj2 (filter_In is_candidate p listing)); auto).
    rewrite Hf in Hin. destruct Hin.
  - assert (Hc : In c listing /\ is_candidate c = true)
      by (apply (proj1 (filter_In is_candidate c listing));
          rewrite Hf; now left).
    split.
    + split.
      * destruct (find exact_name (c :: cs)); discriminate.
      * intros H. destruct Hc as [Hc1 Hc2]. rewrite (H c Hc1) in Hc2.
        discriminate.
    + intros p. destruct (find exact_name (c :: cs)) as [q|] eqn:Hq.
      * intros [= <-]. apply find_some in Hq. destruct Hq as [Hq _].
        apply (proj1 (filter_In is_candidate q listing)).
        rewrite Hf. exact Hq.
      * intros [= <-]. exact Hc.
Qed.

(** X12. Among the candidates, in listing order, the first one named exactly
    "tokenizer.model" is preferred; only when no candidate has that name is
    the first candidate returned. *)
Theorem find_tokenizer_model_prefers_exact (listing : list path) (p : path) :
  find_tokenizer_model name lower listing = Some p ->
  exists pre post,
    candidates name lower listing = pre ++ p :: post /\
    (forall q, In q pre -> name q <> str "tokenizer.model") /\
    (name p = str "tokenizer.model" \/
     (pre = [] /\ forall q, In q post -> name q <> str "tokenizer.model")).
Proof.
  unfold find_tokenizer_model.
  destruct (candidates name lower listing) as [|c cs]; [discriminate|].
  destruct (find exact_name (c :: cs)) as [q|] eqn:Hq.
  - intros [= <-]. apply find_split in Hq.
    destruct Hq as (pre & post & -> & Hp & Hpre).
    exists pre, post. split; [reflexivity|]. split.
    + intros r Hr. apply PyStrFacts.eqb_neq. now apply Hpre.
    + left. now apply PyStrFacts.eqb_eq.
  - intros [= <-]. exists [], cs. split; [reflexivity|].
    pose proof (find_none _ _ Hq) as Hn. split; [intros q []|].
    right. split; [reflexivity|]. intros r Hr.
    apply PyStrFacts.eqb_neq. apply Hn. now right.
Qed.

End FindFacts.
End ExtractVocabFacts.

(** ** List primitives used by the graph scripts *)

Lemma getitem_middle {A} (pre post : list A) (x : A) :
  Py.getitem (pre ++ x :: post) (Py.len pre) = Some x.
Proof.
  unfold Py.getitem, Py.len.
  destruct (Z.ltb_spec (Z.of_nat (List.length pre)) 0); [lia|].
  rewrite Nat2Z.id, nth_error_app2, Nat.sub_diag by lia. reflexivity.
Qed.

Lemma pop_middle {A} (pre post : list A) (x : A) :
  PyList.pop (pre ++ x :: post) (Py.len pre) = Some (pre ++ post).
Proof.
  unfold PyList.pop, Py.len. rewrite length_app. cbn [List.length].
  destruct (Z.ltb_spec (Z.of_nat (List.length pre)) 0); [lia|].
  replace (_ || _) with false
    by (symmetry; apply orb_false_iff; split;
        [apply Z.ltb_ge|apply Z.leb_gt]; lia).
  rewrite Nat2Z.id.
  rewrite firstn_app, Nat.sub_diag, firstn_all. cbn [firstn].
  rewrite app_nil_r.
  replace (S (List.length pre)) with (List.length (pre ++ [x]))
    by (rewrite length_app; cbn; lia).
  replace (pre ++ x :: post) with ((pre ++ [x]) ++ post)
    by (rewrite <- app_assoc; reflexivity).
  rewrite skipn_app, skipn_all, Nat.sub_diag. reflexivity.
Qed.

Lemma reversed_range_S (n : nat) :
  PyList.reversed_range (S n) = Z.of_nat n :: PyList.reversed_range n.
Proof.
  unfold PyList.reversed_range. rewrite seq_S, rev_app_distr. reflexivity.
Qed.

(** ** [patch_decoder.py] *)

Module PatchDecoderFacts.
Import Transcript Onnx.

Section Facts.
Context {array info : Type}.

Local Abbreviation graph := (@GraphProto array info).
Local Abbreviation entry := (@ValueInfoProto info).
Local Abbreviation other_name name :=
  (fun e : entry => negb (PyStr.eqb (vi_name e) name)).

Lemma find_from_spec (outputs : list entry) (name : pystr) :
  forall k,
    (find_from k outputs name = -1 /\
     forall o, In o outputs -> vi_name o <> name)
    \/
    (exists pre o post,
        outputs = pre ++ o :: post /\ vi_name o = name /\
        (forall q, In q pre -> vi_name q <> name) /\
        find_from k outputs name = k + Py.len pre).
Proof.
  induction outputs as [|o rest IH]; intros k; cbn [find_from].
  - left. split; [reflexivity|]. intros o [].
  - destruct (PyStr.eqb (vi_name o) name) eqn:Ho.
    + right. exists [], o, rest. apply PyStrFacts.eqb_eq in Ho.
      split; [reflexivity|]. split; [exact Ho|].
      split; [intros q []|cbn; lia].
    + apply PyStrFacts.eqb_neq in Ho.
      destruct (IH (k + 1)) as [[Hr Hn]|(pre & x & post & -> & Hx & Hpre & Hr)].
      * left. split; [exact Hr|]. intros q [<-|Hq]; auto.
      * right. exists (o :: pre), x, post. repeat split; auto.
        -- intros q [<-|Hq]; auto.
        -- rewrite Hr. unfold Py.len. cbn [List.length]. lia.
Qed.

(** X13. [find_output_index] returns -1 exactly when no output has the name;
    otherwise it returns the index of the first output with that name, a
    valid index of the output list. *)
Theorem find_output_index_first (g : graph) (name : pystr) :
  (find_output_index g name = -1 /\
   forall o, In o (output g) -> vi_name o <> name)
  \/
  (exists pre o post,
      output g = pre ++ o :: post /\ vi_name o = name /\
      (forall q, In q pre -> vi_name q <> name) /\
      find_output_index g name = Py.len pre /\
      0 <= find_output_index g name < Py.len (output g) /\
      Py.getitem (output g) (find_output_index g name) = Some o).
Proof.
  unfold find_output_index.
  destruct (find_from_spec (output g) name 0)
    as [H|(pre & o & post & Hout & Ho & Hpre & Hr)]; [now left|].
  right. exists pre, o, post. rewrite Hr, Hout. cbn.
  repeat split; auto; try (unfold Py.len; rewrite ?length_app; cbn; lia).
  apply getitem_middle.
Qed.

(** Deleting by descending index is filtering. *)
Lemma prune_descending (name : pystr) (l : list entry) :
  forall tail,
    prune (PyList.reversed_range (List.length l)) (l ++ tail) name
    = Some (filter (other_name name) l ++ tail).
Proof.
  induction l as [|x l IH] using rev_ind; intros tail; [reflexivity|].
  rewrite length_app, Nat.add_comm. cbn [List.length Nat.add].
  rewrite reversed_range_S. cbn [prune].
  rewrite <- app_assoc. cbn [app].
  change (Z.of_nat (List.length l)) with (Py.len l).
  rewrite getitem_middle, pop_middle, filter_app. cbn [filter].
  destruct (PyStr.eqb (vi_name x) name); cbn [negb].
  - rewrite IH, app_nil_r. reflexivity.
  - rewrite IH, <- app_assoc. reflexivity.
Qed.

Lemma find_index_cases (g : graph) (name : pystr) :
  (find_output_index g name = -1 /\
   forall o, In o (output g) -> vi_name o <> name)
  \/
  (exists pre o post,
      output g = pre ++ o :: post /\ vi_name o = name /\
      (forall q, In q pre -> vi_name q <> name) /\
      find_output_index g name = Py.len pre).
Proof.
  unfold find_output_index.
  destruct (find_from_spec (output g) name 0)
    as [H|(pre & o & post & Hout & Ho & Hpre & Hr)]; [now left|].
  right. exists pre, o, post. rewrite Hr. auto.
Qed.

(** What a call of [remove_output] returns and leaves behind. *)
Lemma remove_output_cases (g : graph) (name : pystr) :
  exists flag g',
    remove_output g name = Some (flag, g') /\
    flag = (find_output_index g name >=? 0) /\
    value_info g' = filter (other_name name) (value_info g) /\
    node g' = node g /\ initializer g' = initializer g /\
    ((flag = false /\ output g' = output g /\
      forall o, In o (output g) -> vi_name o <> name)
     \/
     (flag = true /\
      exists pre o post,
        output g = pre ++ o :: post /\ vi_name o = name /\
        (forall q, In q pre -> vi_name q <> name) /\
        output g' = pre ++ post)).
Proof.
  unfold remove_output.
  pose proof (prune_descending name (value_info g) []) as Hp.
  rewrite !app_nil_r in Hp. rewrite Hp.
  destruct (find_index_cases g name)
    as [[Hr Hn]|(pre & o & post & Hout & Ho & Hpre & Hr)]; rewrite Hr.
  - cbn. eexists _, _. split; [reflexivity|]. cbn.
    repeat split. left. auto.
  - replace (Py.len pre >=? 0) with true
      by (symmetry; apply Z.geb_le; unfold Py.len; lia).
    rewrite Hout, pop_middle. eexists _, _. split; [reflexivity|]. cbn.
    repeat split. right. split; [reflexivity|]. exists pre, o, post. auto.
Qed.

(** X14. [remove_output] never raises: the loop that pops [value_info]
    entries by descending index leaves exactly the entries with another
    name, in their order, and the call leaves nodes and initializers
    untouched. *)
Theorem remove_output_prunes_value_info (g : graph) (name : pystr) :
  exists flag g',
    remove_output g name = Some (flag, g') /\
    value_info g' = filter (other_name name) (value_info g) /\
    node g' = node g /\ initializer g' = initializer g.
Proof.
  destruct (remove_output_cases g name)
    as (flag & g' & Hrm & _ & Hvi & Hnode & Hinit & _).
  exists flag, g'. auto.
Qed.

(** X15. The flag returned by [remove_output] tells whether an output had the
    name, and agrees with [find_output_index]: when no output has the name
    the output list is unchanged, otherwise exactly the first output with
    that name is removed. *)
Theorem remove_output_first_match (g g' : graph) (name : pystr) (flag : bool) :
  remove_output g name = Some (flag, g') ->
  flag = (find_output_index g name >=? 0) /\
  ((flag = false /\ output g' = output g /\
    forall o, In o (output g) -> vi_name o <> name)
   \/
   (flag = true /\
    exists pre o post,
      output g = pre ++ o :: post /\ vi_name o = name /\
      (forall q, In q pre -> vi_name q <> name) /\
      output g' = pre ++ post)).
Proof.
  intros Hrm.
  destruct (remove_output_cases g name)
    as (flag0 & g0 & Hrm0 & Hflag & _ & _ & _ & Hout).
  rewrite Hrm in Hrm0. injection Hrm0 as <- <-.
  split; [exact Hflag|exact Hout].
Qed.

Lemma filter_other_name_idem (name : pystr) (l : list entry) :
  filter (other_name name) (filter (other_name name) l)
  = filter (other_name name) l.
Proof.
  induction l as [|x l IH]; [reflexivity|]. cbn [filter].
  destruct (other_name name x) eqn:E; [|exact IH].
  cbn [filter]. now rewrite E, IH.
Qed.

(** X16. With pairwise distinct output names, one call of [remove_output]
    completes the patch: afterwards [find_output_index] returns -1 and a
    second call returns [False] without changing the graph. *)
Theorem remove_output_idempotent (g g' : graph) (name : pystr) (flag : bool) :
  NoDup (map vi_name (output g)) ->
  remove_output g name = Some (flag, g') ->
  find_output_index g' name = -1 /\
  remove_output g' name = Some (false, g').
Proof.
  intros Hnd Hrm.
  destruct (remove_output_cases g name)
    as (flag0 & g0 & Hrm0 & _ & Hvi & Hnode & Hinit & Hout).
  rewrite Hrm in Hrm0. injection Hrm0 as <- <-.
  assert (Hno : forall o, In o (output g') -> vi_name o <> name).
  { destruct Hout as [(_ & -> & Hn)|(_ & pre & o & post & Hout & Ho & Hpre & ->)];
      [exact Hn|].
    intros q Hq. apply in_app_or in Hq. destruct Hq as [Hq|Hq]; [auto|].
    rewrite Hout, map_app in Hnd. cbn [map] in Hnd.
    apply NoDup_remove_2 in Hnd. intros Heq. apply Hnd.
    apply in_or_app. right. rewrite Ho, <- Heq. now apply in_map. }
  assert (Hidx : find_output_index g' name = -1).
  { destruct (find_index_cases g' name)
      as [[Hr _]|(pre & o & post & Hout' & Ho & _)]; [exact Hr|].
    exfalso. apply (Hno o); [|exact Ho].
    rewrite Hout'. apply in_or_app. right. now left. }
  split; [exact Hidx|].
  unfold remove_output. rewrite Hidx. cbn.
  pose proof (prune_descending name (value_info g') []) as Hp.
  rewrite !app_nil_r in Hp. rewrite Hp, Hvi, filter_other_name_idem.
  destruct g'; cbn in *. now subst.
Qed.

End Facts.
End PatchDecoderFacts.

(** ** [patch_encoder.py] *)

Module PatchEncoderFacts.
Import Transcript Onnx.

Section Facts.
Context {array info : Type}.
Variable to_int : array -> option Z.
Variable array_two : array -> option array.

Local Abbreviation graph := (@GraphProto array info).
Local Abbreviation tensor := (@TensorProto array).
Local Abbreviation nodeproto := NodeProto.
Local Abbreviation named name := (fun init : tensor => PyStr.eqb (tp_name init) name).

(** A Slice_3 node takes [constant_name] as its axes input. *)
Local Abbreviation slice3_ok constant_name :=
  (fun n : nodeproto =>
     PyStr.contains (str "self_attn/Slice_3") (node_name n) = true ->
     Py.getitem (node_input n) 3 = Some constant_name).

Lemma find_first (f : tensor -> bool) (l : list tensor) (x : tensor) :
  find f l = Some x ->
  exists pre post, l = pre ++ x :: post /\ f x = true /\
                   forall q, In q pre -> f q = false.
Proof.
  induction l as [|y l IH]; cbn; [discriminate|].
  destruct (f y) eqn:Hy.
  - intros [= ->]. exists [], l. repeat split; auto. intros q [].
  - intros H. destruct (IH H) as (pre & post & -> & Hp & Hpre).
    exists (y :: pre), post. repeat split; auto.
    intros q [->|Hq]; auto.
Qed.

(** X17. [diagnose] asks for a patch only when the graph holds the axis
    constant with a value other than 2, which it reports as read from the
    first initializer of that name; a graph without the constant is reported
    as needing no patch, with the value -1. *)
Theorem diagnose_needs_patch (g : graph) :
  ((forall init, In init (initializer g) -> tp_name init <> target) ->
   diagnose to_int g = Some (false, target, -1)) /\
  (forall name val,
      diagnose to_int g = Some (true, name, val) ->
      name = target /\ val <> 2 /\
      exists pre init post,
        initializer g = pre ++ init :: post /\
        tp_name init = target /\ to_int (tp_array init) = Some val /\
        forall q, In q pre -> tp_name q <> target).
Proof.
  unfold diagnose. split.
  - intros Hn. destruct (find (named target) (initializer g)) as [init|] eqn:Hf;
      [|reflexivity].
    apply find_some in Hf. destruct Hf as [Hin Hname].
    apply PyStrFacts.eqb_eq in Hname. now apply Hn in Hin.
  - intros name val.
    destruct (find (named target) (initializer g)) as [init|] eqn:Hf;
      [|discriminate].
    destruct (to_int (tp_array init)) as [v|] eqn:Hv; [|discriminate].
    intros [= Hneg <- <-]. split; [reflexivity|]. split.
    + apply negb_true_iff, Z.eqb_neq in Hneg. exact Hneg.
    + apply find_first in Hf. destruct Hf as (pre & post & Hl & Hname & Hpre).
      exists pre, init, post. repeat split; auto.
      * now apply PyStrFacts.eqb_eq.
      * intros q Hq. apply PyStrFacts.eqb_neq. now apply Hpre.
Qed.

Lemma patch_constant_names (inits inits' : list tensor) (name : pystr) :
  patch_constant array_two inits name = Some inits' ->
  map tp_name inits' = map tp_name inits.
Proof.
  revert inits'. induction inits as [|init rest IH]; intros inits';
    cbn [patch_constant].
  - intros [= <-]. reflexivity.
  - destruct (PyStr.eqb (tp_name init) name).
    + destruct (array_two (tp_array init)); [|discriminate].
      intros [= <-]. reflexivity.
    + destruct (patch_constant array_two rest name) as [rest'|];
        [|discriminate].
      cbn. intros [= <-]. cbn. now rewrite (IH rest').
Qed.

(** [patch_constant] replaces the array of the first initializer of that
    name, and raises exactly when building the replacement raises. *)
Lemma patch_constant_found (inits : list tensor) (name : pystr) (init : tensor) :
  find (named name) inits = Some init ->
  match array_two (tp_array init) with
  | None => patch_constant array_two inits name = None
  | Some new_val =>
      exists inits',
        patch_constant array_two inits name = Some inits' /\
        find (named name) inits' = Some (mkTensor (tp_name init) new_val)
  end.
Proof.
  induction inits as [|x rest IH]; cbn [find patch_constant]; [discriminate|].
  destruct (PyStr.eqb (tp_name x) name) eqn:Hx.
  - intros [= <-]. destruct (array_two (tp_array x)) as [new_val|];
      [|reflexivity].
    eexists. split; [reflexivity|]. cbn [find tp_name]. now rewrite Hx.
  - intros H. specialize (IH H).
    destruct (array_two (tp_array init)) as [new_val|].
    + destruct IH as (rest' & -> & Hf). eexists. split; [reflexivity|].
      cbn [find]. now rewrite Hx.
    + now rewrite IH.
Qed.

Lemma patch_constant_absent (inits : list tensor) (name : pystr) :
  find (named name) inits = None ->
  patch_constant array_two inits name = Some inits.
Proof.
  induction inits as [|x rest IH]; cbn [find patch_constant]; [reflexivity|].
  destruct (PyStr.eqb (tp_name x) name); [discriminate|].
  intros H. now rewrite (IH H).
Qed.

(** One pass of the clearing loop removes one entry. *)
Lemma clear_loop_enough (fuel : nat) :
  forall vi : list (@ValueInfoProto info),
    (List.length vi <= fuel)%nat -> clear_loop fuel vi = Some [].
Proof.
  induction fuel as [|fuel IH]; intros vi Hlen.
  - destruct vi; [reflexivity|cbn in Hlen; lia].
  - destruct vi as [|x vi] using rev_ind; [reflexivity|].
    cbn [clear_loop].
    replace (Py.len (vi ++ [x]) >? 0) with true
      by (symmetry; apply Z.gtb_lt; unfold Py.len;
          rewrite length_app; cbn; lia).
    rewrite removelast_last. apply IH.
    rewrite length_app in Hlen. cbn in Hlen. lia.
Qed.

Lemma check_slice3_ok (nodes : list nodeproto) (name : pystr) :
  forall count,
    Forall (slice3_ok name) nodes ->
    exists count', check_slice3 nodes name count = inr count'.
Proof.
  induction nodes as [|n rest IH]; intros count Hok; cbn [check_slice3];
    [eauto|].
  inversion Hok as [|? ? Hn Hrest]; subst.
  destruct (PyStr.contains _ (node_name n)); [|auto].
  rewrite (Hn eq_refl), PyStrFacts.eqb_refl. auto.
Qed.

Lemma check_slice3_fails (nodes : list nodeproto) (name : pystr) :
  forall count,
    ~ Forall (slice3_ok name) nodes ->
    exists e, check_slice3 nodes name count = inl e /\
              (e = InputIndexError \/ e = AssertionError).
Proof.
  induction nodes as [|n rest IH]; intros count Hbad; cbn [check_slice3].
  - exfalso. apply Hbad. constructor.
  - destruct (PyStr.contains _ (node_name n)) eqn:Hc.
    + destruct (Py.getitem (node_input n) 3) as [axes|] eqn:Hax; [|eauto].
      destruct (PyStr.eqb axes name) eqn:He; [|eauto].
      apply PyStrFacts.eqb_eq in He. subst axes.
      apply IH. intros Hrest. apply Hbad. constructor; [auto|exact Hrest].
    + apply IH. intros Hrest. apply Hbad. constructor; [|exact Hrest].
      intros H. rewrite Hc in H. discriminate.
Qed.

(** X19. [patch_graph] always ends.  It raises first when building the
    replacement for the matched initializer raises; otherwise it raises
    IndexError or AssertionError exactly when some node whose name contains
    "self_attn/Slice_3" does not take the constant as its fourth input; and
    otherwise it returns the number of [value_info] entries and leaves a
    graph with no [value_info] entry, the same nodes and outputs, and
    initializers of the same names in the same order. *)
Theorem patch_graph_outcome (g : graph) (constant_name : pystr) :
  patch_graph array_two g constant_name <> None /\
  (forall init,
      find (named constant_name) (initializer g) = Some init ->
      array_two (tp_array init) = None ->
      patch_graph array_two g constant_name = Some (inl ArrayError)) /\
  ((forall init,
       find (named constant_name) (initializer g) = Some init ->
       array_two (tp_array init) <> None) ->
   (Forall (slice3_ok constant_name) (node g) ->
    exists g',
      patch_graph array_two g constant_name
      = Some (inr (Py.len (value_info g), g')) /\
      value_info g' = [] /\ node g' = node g /\ output g' = output g /\
      map tp_name (initializer g') = map tp_name (initializer g)) /\
   (~ Forall (slice3_ok constant_name) (node g) ->
    exists e,
      patch_graph array_two g constant_name = Some (inl e) /\
      (e = InputIndexError \/ e = AssertionError))).
Proof.
  unfold patch_graph, patch_graph_fuel. split; [|split].
  - destruct (patch_constant _ _ _); [|discriminate].
    destruct (check_slice3 _ _ _); [discriminate|].
    rewrite clear_loop_enough by lia. discriminate.
  - intros init Hf Hnone. pose proof (patch_constant_found _ _ _ Hf) as Hp.
    rewrite Hnone in Hp. now rewrite Hp.
  - intros Hbuild.
    assert (Hp : exists inits',
               patch_constant array_two (initializer g) constant_name
               = Some inits').
    { destruct (find (named constant_name) (initializer g)) as [init|] eqn:Hf.
      - pose proof (patch_constant_found _ _ _ Hf) as Hp.
        destruct (array_two (tp_array init)) as [new_val|] eqn:Ha.
        + destruct Hp as (inits' & Hp & _). eauto.
        + exfalso. now apply (Hbuild init).
      - rewrite patch_constant_absent by assumption. eauto. }
    destruct Hp as (inits' & Hp). rewrite Hp. split; intros Hn.
    + destruct (check_slice3_ok _ _ 0 Hn) as (count & ->).
      rewrite clear_loop_enough by lia. eexists. split; [reflexivity|].
      cbn. repeat split. eapply patch_constant_names. exact Hp.
    + destruct (check_slice3_fails _ _ 0 Hn) as (e & -> & He). eauto.
Qed.

(** X18. After [diagnose] has asked for a patch and [patch_graph] has
    returned, [diagnose] on the patched graph reads the replacement array
    of the first initializer named [target]: it returns
    [(v != 2, target, v)] for [v = int(replacement)].  So it reports
    [(False, target, 2)], and the assertion of line 128 passes, whenever
    [int] of the replacement is 2; and it raises when [int] of the
    replacement raises. *)
Theorem patch_then_diagnose (g g' : graph) (name : pystr) (val n : Z) :
  diagnose to_int g = Some (true, name, val) ->
  patch_graph array_two g name = Some (inr (n, g')) ->
  exists init new_val,
    find (named target) (initializer g) = Some init /\
    array_two (tp_array init) = Some new_val /\
    diagnose to_int g'
    = option_map (fun v => (negb (v =? 2), target, v)) (to_int new_val) /\
    (to_int new_val = Some 2 -> diagnose to_int g' = Some (false, target, 2)) /\
    (to_int new_val = None -> diagnose to_int g' = None).
Proof.
  intros Hd Hp. unfold diagnose in Hd.
  destruct (find (named target) (initializer g)) as [init|] eqn:Hf;
    [|discriminate].
  destruct (to_int (tp_array init)); [|discriminate].
  injection Hd as _ <- _.
  unfold patch_graph, patch_graph_fuel in Hp.
  pose proof (patch_constant_found _ _ _ Hf) as Hpc.
  destruct (array_two (tp_array init)) as [new_val|] eqn:Ha;
    [|rewrite Hpc in Hp; discriminate].
  destruct Hpc as (inits' & Hpc & Hfind). rewrite Hpc in Hp.
  destruct (check_slice3 _ _ _); [discriminate|].
  destruct (clear_loop _ _); [|discriminate].
  injection Hp as _ <-.
  exists init, new_val.
  assert (Hdiag : diagnose to_int (mkGraph (node g) inits' (output g) l)
                  = option_map (fun v => (negb (v =? 2), target, v))
                               (to_int new_val)).
  { unfold diagnose. cbn [initializer]. rewrite Hfind. cbn [tp_array].
    destruct (to_int new_val); reflexivity. }
  split; [reflexivity|]. split; [exact Ha|]. split; [exact Hdiag|].
  split; intros Hv; rewrite Hdiag, Hv; reflexivity.
Qed.

End Facts.
End PatchEncoderFacts.

(** ** Concrete runs of the further properties *)

Lemma empty_utterance_no_pass_witness :
  Stub.decode 7 2 0 0 = Tdt.Finished (Tdt.init_state 0) /\
  (forall fuel,
      Tdt.run Z.leb Stub.isnan (Stub.session 7 2 0) tt 0 10 fuel
              (Tdt.init_state 0) = Tdt.Finished (Tdt.init_state 0)) /\
  (forall s, Tdt.reachable Z.leb Stub.isnan (Stub.session 7 2 0) tt 0 0 10 s ->
             s = Tdt.init_state 0).
Proof.
  apply (empty_utterance_no_pass Z.leb Stub.isnan (Stub.session 7 2 0)
           tt 0 0 10).
  lia.
Defined.

Lemma last_label_is_last_token_witness :
  Tdt.last_label (Tdt.mkState [7; 7] 4 7 2 2 2 : @Tdt.DecodeState Z)
  = last [7; 7] Tdt.blank_id.
Proof.
  apply (last_label_is_last_token Z.leb Stub.isnan (Stub.session 7 2 3)
           tt 3 0 10 (Tdt.mkState [7; 7] 4 7 2 2 2)).
  left. exact stub_scenario_B_reachable.
Defined.

Lemma stub_all_blank_ranks :
  forall label h c, exists joint h' c',
    Stub.session 1024 0 2 tt label h c = Some (joint, h', c') /\
    forall k, 0 <= k < 2 ->
      exists logits,
        Py.getitem joint k = Some logits /\
        np_argmax Z.leb Stub.isnan (Py.slice_to logits (Tdt.blank_id + 1))
        = Some (Z.to_nat Tdt.blank_id).
Proof.
  intros label h c. eexists _, _, _. split; [reflexivity|].
  intros k Hk. assert (k = 0 \/ k = 1) as [->| ->] by lia;
    exists (Stub.logits 1024 0); split; vm_compute; reflexivity.
Defined.

Lemma all_blank_empty_output_witness :
  exists s, Stub.decode 1024 0 2 2 = Tdt.Finished s /\
            Tdt.tokens s = [] /\ Tdt.t s = 2 /\ Tdt.iters s = 2 /\
            Tdt.last_label s = Tdt.blank_id.
Proof.
  apply (all_blank_empty_output Z.leb Stub.isnan (Stub.session 1024 0 2)
           tt 2 0 10); [lia|lia|exact stub_all_blank_ranks].
Defined.

Lemma Zleb_total (x y : Z) : (x <=? y) = true \/ (y <=? x) = true.
Proof. rewrite !Z.leb_le. lia. Defined.

Lemma Zleb_trans (x y z : Z) :
  (x <=? y) = true -> (y <=? z) = true -> (x <=? z) = true.
Proof. rewrite !Z.leb_le. lia. Defined.

Lemma blank_wins_strictly_witness :
  ((Tdt.best_label Z.leb Stub.isnan (Stub.session 1024 0 1) tt
      (Tdt.init_state 0) = Some Tdt.blank_id -> (1 <=? 0) = false) /\
   (Tdt.best_label Z.leb Stub.isnan (Stub.session 1024 0 1) tt
      (Tdt.init_state 0) = Some 7 -> (1 <=? 0) = true)) /\
  Tdt.best_label Z.leb Stub.isnan (Stub.session 1024 0 1) tt
    (Tdt.init_state 0) = Some Tdt.blank_id.
Proof.
  split; [|vm_compute; reflexivity].
  apply (blank_wins_strictly Z.leb Stub.isnan (Stub.session 1024 0 1) tt
           (fun _ => eq_refl) Zleb_total Zleb_trans
           (Tdt.init_state 0) [Stub.logits 1024 0] 1 1 (Stub.logits 1024 0) 7);
    try (vm_compute; reflexivity).
  unfold Tdt.blank_id. lia.
Defined.

Lemma no_duration_segment_blank_or_error_witness :
  let s := Tdt.init_state 0 in
  (Tdt.best_label Z.leb Stub.isnan Sample.short_session tt s
     = Some Tdt.blank_id /\
   Tdt.loop_body Z.leb Stub.isnan Sample.short_session tt s
     = Tdt.Next (Tdt.mkState (Tdt.tokens s) (Tdt.t s + 1) (Tdt.last_label s)
                             (Tdt.iters s + 1) 1 1))
  \/
  (Tdt.best_label Z.leb Stub.isnan Sample.short_session tt s
     <> Some Tdt.blank_id /\
   exists s', Tdt.loop_body Z.leb Stub.isnan Sample.short_session tt s
                = Tdt.Raise ValueError s' /\
              (Tdt.tokens s' = Tdt.tokens s \/
               exists best,
                 Tdt.best_label Z.leb Stub.isnan Sample.short_session tt s
                   = Some best /\
                 Tdt.tokens s' = Tdt.tokens s ++ [best])).
Proof.
  apply (no_duration_segment_blank_or_error Z.leb Stub.isnan
           Sample.short_session tt (Tdt.init_state 0) [[5; 1; 2]] 1 1 [5; 1; 2]);
    try reflexivity.
  vm_compute. discriminate.
Defined.

Lemma decode_text_keeps_all_tokens_witness :
  Transcript.text Sample.full_vocab [7; 7] = Some (Transcript.str "aa").
Proof.
  refine (eq_trans
            (decode_text_keeps_all_tokens Z.leb Stub.isnan (Stub.session 7 2 3)
               tt 3 0 10 Sample.full_vocab (Tdt.mkState [7; 7] 4 7 2 2 2) _ _)
            _).
  - vm_compute. discriminate.
  - vm_compute. reflexivity.
  - vm_compute. reflexivity.
Defined.

Lemma vocab_file_round_trip_witness :
  VocabFile.vocab [VocabFile.CR; VocabFile.LF] Transcript.scenario_D_vocab
    = Transcript.scenario_D_vocab /\
  Py.len (VocabFile.vocab [VocabFile.CR; VocabFile.LF]
            Transcript.scenario_D_vocab)
    = Py.len Transcript.scenario_D_vocab /\
  (forall i,
      Py.getitem (VocabFile.vocab [VocabFile.CR; VocabFile.LF]
                    Transcript.scenario_D_vocab) i
      = Py.getitem Transcript.scenario_D_vocab i).
Proof.
  apply (VocabFileFacts.vocab_file_round_trip
           [VocabFile.CR; VocabFile.LF] Transcript.scenario_D_vocab).
  - right. reflexivity.
  - repeat constructor.
Defined.

Lemma find_tokenizer_model_prefers_exact_witness :
  exists pre post,
    ExtractVocab.candidates (fun p => p) ExtractVocab.ascii_lower Sample.listing
      = pre ++ Transcript.str "tokenizer.model" :: post /\
    (forall q, In q pre -> q <> Transcript.str "tokenizer.model") /\
    (Transcript.str "tokenizer.model" = Transcript.str "tokenizer.model" \/
     (pre = [] /\
      forall q, In q post -> q <> Transcript.str "tokenizer.model")).
Proof.
  apply (ExtractVocabFacts.find_tokenizer_model_prefers_exact
           (fun p => p) ExtractVocab.ascii_lower Sample.listing
           (Transcript.str "tokenizer.model")).
  vm_compute. reflexivity.
Defined.

Lemma sample_remove_output :
  Onnx.remove_output Sample.decoder_graph (Transcript.str "prednet_lengths")
  = Some (true, Sample.patched_decoder_graph).
Proof. vm_compute. reflexivity. Defined.

Lemma remove_output_first_match_witness :
  true = (Onnx.find_output_index Sample.decoder_graph
            (Transcript.str "prednet_lengths") >=? 0) /\
  ((true = false /\
    Onnx.output Sample.patched_decoder_graph = Onnx.output Sample.decoder_graph /\
    forall o, In o (Onnx.output Sample.decoder_graph) ->
              Onnx.vi_name o <> Transcript.str "prednet_lengths")
   \/
   (true = true /\
    exists pre o post,
      Onnx.output Sample.decoder_graph = pre ++ o :: post /\
      Onnx.vi_name o = Transcript.str "prednet_lengths" /\
      (forall q, In q pre ->
                 Onnx.vi_name q <> Transcript.str "prednet_lengths") /\
      Onnx.output Sample.patched_decoder_graph = pre ++ post)).
Proof.
  exact (PatchDecoderFacts.remove_output_first_match
           Sample.decoder_graph Sample.patched_decoder_graph
           (Transcript.str "prednet_lengths") true sample_remove_output).
Defined.

Lemma sample_output_names_distinct :
  NoDup (map Onnx.vi_name (Onnx.output Sample.decoder_graph)).
Proof.
  repeat constructor; cbn; intros H;
    repeat (destruct H as [H|H]; [discriminate H|]); exact H.
Defined.

Lemma remove_output_idempotent_witness :
  Onnx.find_output_index Sample.patched_decoder_graph
    (Transcript.str "prednet_lengths") = -1 /\
  Onnx.remove_output Sample.patched_decoder_graph
    (Transcript.str "prednet_lengths")
  = Some (false, Sample.patched_decoder_graph).
Proof.
  exact (PatchDecoderFacts.remove_output_idempotent
           Sample.decoder_graph Sample.patched_decoder_graph
           (Transcript.str "prednet_lengths") true
           sample_output_names_distinct sample_remove_output).
Defined.

Lemma sample_diagnose_legacy :
  Onnx.diagnose Sample.to_int_legacy (Sample.encoder_graph (Sample.Vector [3]))
  = Some (true, Onnx.target, 3).
Proof. vm_compute. reflexivity. Defined.

Lemma sample_patch_legacy :
  Onnx.patch_graph Sample.array_two (Sample.encoder_graph (Sample.Vector [3]))
                   Onnx.target
  = Some (inr (1, Sample.patched_encoder_graph)).
Proof. vm_compute. reflexivity. Defined.

Lemma patch_then_diagnose_witness :
  exists init new_val,
    find (fun i => PyStr.eqb (Onnx.tp_name i) Onnx.target)
         (Onnx.initializer (Sample.encoder_graph (Sample.Vector [3])))
      = Some init /\
    Sample.array_two (Onnx.tp_array init) = Some new_val /\
    Onnx.diagnose Sample.to_int_legacy Sample.patched_encoder_graph
    = option_map (fun v => (negb (v =? 2), Onnx.target, v))
                 (Sample.to_int_legacy new_val) /\
    (Sample.to_int_legacy new_val = Some 2 ->
     Onnx.diagnose Sample.to_int_legacy Sample.patched_encoder_graph
     = Some (false, Onnx.target, 2)) /\
    (Sample.to_int_legacy new_val = None ->
     Onnx.diagnose Sample.to_int_legacy Sample.patched_encoder_graph = None).
Proof.
  exact (PatchEncoderFacts.patch_then_diagnose
           Sample.to_int_legacy Sample.array_two
           (Sample.encoder_graph (Sample.Vector [3]))
           Sample.patched_encoder_graph Onnx.target 3 1
           sample_diagnose_legacy sample_patch_legacy).
Defined.

(** The two conversions on the sample: where one-element arrays convert,
    the patched graph is diagnosed as sound; where only 0-dimensional
    arrays convert, a graph whose constant was the scalar 3 is patched to
    the 1-dimensional [2] and the second [diagnose] raises. *)
Lemma sample_patch_then_diagnose :
  Onnx.diagnose Sample.to_int_legacy Sample.patched_encoder_graph
    = Some (false, Onnx.target, 2) /\
  Onnx.diagnose Sample.to_int_strict (Sample.encoder_graph (Sample.Scalar 3))
    = Some (true, Onnx.target, 3) /\
  Onnx.patch_graph Sample.array_two (Sample.encoder_graph (Sample.Scalar 3))
                   Onnx.target
    = Some (inr (1, Sample.patched_encoder_graph)) /\
  Onnx.diagnose Sample.to_int_strict Sample.patched_encoder_graph = None.
Proof. repeat split; vm_compute; reflexivity. Qed.
